(** * ElidingLabel: a shallow embedding of
      Code/Framework/AzQtComponents/AzQtComponents/Components/Widgets/ElidingLabel.cpp

    The widget is a [QLabel] that shows a shortened version of its text when
    the text does not fit, and that paints highlight rectangles behind the
    matches of a filter.  The widget's own fields and the fields of its
    [QLabel] base that the code reads or writes are a record; every member
    function is a function on that record.  The services of the toolkit
    (font metrics, rich-text layout, regular expressions) are the fields of
    a [Toolkit] record, over which the whole development is parameterised.
    The [int]s of the code are integers: pixel coordinates and widths stay
    far from the bounds of [int], where the arithmetic of the code is
    undefined. *)

From Stdlib Require Import ZArith QArith List String Ascii Bool Lia Lqa Arith.
Import ListNotations.

Local Open Scope string_scope.
Local Open Scope list_scope.
Local Open Scope Z_scope.

(* ===================================================================== *)
(** ** Toolkit value types *)
(* ===================================================================== *)

(** [Qt::TextElideMode]. *)
Inductive TextElideMode : Type :=
| ElideLeft
| ElideRight
| ElideMiddle
| ElideNone.

Definition TextElideMode_eqb (a b : TextElideMode) : bool :=
  match a, b with
  | ElideLeft, ElideLeft => true
  | ElideRight, ElideRight => true
  | ElideMiddle, ElideMiddle => true
  | ElideNone, ElideNone => true
  | _, _ => false
  end.

(** [std::numeric_limits<int>::max()] for the toolkit's 32-bit [int]. *)
Definition INT_MAX : Z := 2147483647.

(** [QSize]: a width and a height. *)
Record QSize : Type := mkQSize { wd : Z; ht : Z }.

(** [QSize::boundedTo]: the componentwise minimum. *)
Definition boundedTo (s other : QSize) : QSize :=
  {| wd := Z.min (wd s) (wd other); ht := Z.min (ht s) (ht other) |}.

(** [QRect] stores its two corners; [right()] and [bottom()] are the
    coordinates of the last column and row, so [width() = x2 - x1 + 1]. *)
Record QRect : Type := mkQRect { x1 : Z; y1 : Z; x2 : Z; y2 : Z }.

Definition QRect_xywh (x y w h : Z) : QRect :=
  {| x1 := x; y1 := y; x2 := x + w - 1; y2 := y + h - 1 |}.

Definition left (r : QRect) : Z := x1 r.
Definition top (r : QRect) : Z := y1 r.
Definition right (r : QRect) : Z := x2 r.
Definition width (r : QRect) : Z := x2 r - x1 r + 1.
Definition height (r : QRect) : Z := y2 r - y1 r + 1.

Definition adjust (dx1 dy1 dx2 dy2 : Z) (r : QRect) : QRect :=
  {| x1 := x1 r + dx1; y1 := y1 r + dy1; x2 := x2 r + dx2; y2 := y2 r + dy2 |}.

(** [QRegExp(pattern, Qt::CaseInsensitive)]: the pattern and its case
    sensitivity; matching is the toolkit's. *)
Inductive CaseSensitivity : Type := CaseInsensitive | CaseSensitive.
Record QRegExp : Type := mkQRegExp { pattern : string; caseSensitivity : CaseSensitivity }.

(** [QString::isEmpty], [QString::left] and [QString::mid]. *)
Definition isEmpty (s : string) : bool :=
  match s with EmptyString => true | String _ _ => false end.

Definition qleft (n : nat) (s : string) : string := substring 0 n s.
Definition mid (pos n : nat) (s : string) : string := substring pos n s.

(* ===================================================================== *)
(** ** Rich-text documents and their editing cursor *)
(* ===================================================================== *)

(** A [QTextDocument] is the sequence of its characters, each with its
    character format; paragraph separators between blocks are characters of
    that sequence.  The separator that ends the last block is not stored:
    [characterCount] counts it, and the position [End] is just before it. *)
Section Document.
Variable Fmt : Type.

Definition DChar : Type := (ascii * Fmt)%type.
Definition Document : Type := list DChar.

Definition characterCount (d : Document) : nat := S (List.length d).

Definition toPlainText (d : Document) : string :=
  string_of_list_ascii (List.map fst d).

(** [QTextCursor] on the document it edits: the code's cursor and the
    [static] document it points into, taken together. *)
Record QTextCursor : Type := mkCursor { contents : Document; position : nat }.

(** [QTextCursor textCursor(&doc)]: a cursor at the start. *)
Definition cursorOn (d : Document) : QTextCursor :=
  {| contents := d; position := 0 |}.

(** [movePosition(QTextCursor::End)]. *)
Definition movePositionEnd (c : QTextCursor) : QTextCursor :=
  {| contents := contents c; position := List.length (contents c) |}.

Definition atStart (c : QTextCursor) : bool := Nat.eqb (position c) 0.

(** [deletePreviousChar]: nothing at the start, else the character before
    the cursor goes and the cursor moves back by one. *)
Definition deletePreviousChar (c : QTextCursor) : QTextCursor :=
  match position c with
  | O => c
  | S p => {| contents := firstn p (contents c) ++ skipn (S p) (contents c);
              position := p |}
  end.

(** The format new text gets: that of the character before the cursor,
    and the block's when there is none. *)
Definition charFormat (blockFmt : Fmt) (c : QTextCursor) : Fmt :=
  match position c with
  | O => blockFmt
  | S p => match nth_error (contents c) p with
           | Some ch => snd ch
           | None => blockFmt
           end
  end.

(** [insertText]: the characters go in at the cursor, which ends up
    behind them. *)
Definition insertText (blockFmt : Fmt) (s : string) (c : QTextCursor) : QTextCursor :=
  let f := charFormat blockFmt c in
  let new := List.map (fun a => (a, f)) (list_ascii_of_string s) in
  {| contents := firstn (position c) (contents c) ++ new
                 ++ skipn (position c) (contents c);
     position := (position c + List.length new)%nat |}.
End Document.

Arguments contents {Fmt} _.
Arguments position {Fmt} _.
Arguments mkCursor {Fmt} _ _.
Arguments cursorOn {Fmt} _.
Arguments movePositionEnd {Fmt} _.
Arguments atStart {Fmt} _.
Arguments deletePreviousChar {Fmt} _.
Arguments charFormat {Fmt} _ _.
Arguments insertText {Fmt} _ _ _.
Arguments characterCount {Fmt} _.
Arguments toPlainText {Fmt} _.

(* ===================================================================== *)
(** ** The services of the toolkit *)
(* ===================================================================== *)

(** What the widget asks of the toolkit, for the widget's current font and
    style.  Widths of laid-out documents are [qreal]s in the toolkit
    ([QSizeF]); they are rationals here, and the [int] widths they are
    compared with are injected. *)
Record Toolkit : Type := mkToolkit {
  (** [Qt::mightBeRichText] *)
  mightBeRichText : string -> bool;
  (** [fontMetrics().horizontalAdvance] *)
  horizontalAdvance : string -> Z;
  (** [fontMetrics().elidedText(text, mode, width)] *)
  elidedText : string -> TextElideMode -> Z -> string;
  (** character formats of rich text, and the format of an empty block *)
  Fmt : Type;
  blockCharFormat : Fmt;
  (** [doc.setHtml] *)
  setHtml : string -> Document Fmt;
  (** [doc.size().width()] after [adjustSize()], with the widget's font,
      margin 0 and wrapping off *)
  docWidth : Document Fmt -> Q;
  (** [doc.toHtml()] *)
  toHtml : Document Fmt -> string;
  (** whether the regular expression matches the text at exactly that
      offset *)
  matchesAt : QRegExp -> string -> nat -> bool
}.

(** [QString::indexOf(rx, from)]: the first offset at or after [from] where
    the expression matches, and -1 when there is none.  A negative [from]
    counts from the end of the string. *)
Fixpoint findFrom (p : nat -> bool) (i n : nat) : option nat :=
  match n with
  | O => None
  | S n' => if p i then Some i else findFrom p (S i) n'
  end.

Definition indexOf (tk : Toolkit) (rx : QRegExp) (from : Z) (s : string) : Z :=
  let len := Z.of_nat (String.length s) in
  let offset := if from <? 0 then from + len else from in
  if (offset <? 0) || (len <? offset) then -1
  else match findFrom (matchesAt tk rx s) (Z.to_nat offset)
                      (S (String.length s) - Z.to_nat offset) with
       | Some i => Z.of_nat i
       | None => -1
       end.

(* ===================================================================== *)
(** ** The widget *)
(* ===================================================================== *)

(** What the member functions ask of the toolkit or announce: the signal
    [elisionRequired], [updateGeometry()] and [update()]. *)
Inductive Effect : Type :=
| elisionRequired (geometryUpdateRequired : bool)
| updateGeometry
| update.

(** The fixed highlight colour of the class, and what [paintEvent] does on
    the painter. *)
Inductive QColor : Type := backgroundColor.

Inductive PaintOp : Type :=
| save
| fillRect (r : QRect) (c : QColor)
| restore
| QLabel_paintEvent.

(** The fields of the class, then the state of the [QLabel] base and of
    the widget's geometry that the member functions use, then the effects
    so far, oldest first. *)
Record ElidingLabel : Type := mkElidingLabel {
  m_text : string;
  m_elidedText : string;
  m_description : string;
  m_elideMode : TextElideMode;
  m_metricsLabel : string;          (* the text of the hidden label *)
  m_filterString : string;
  m_filterRegex : QRegExp;
  text : string;                    (* QLabel::text() *)
  toolTip : string;
  contentsRect : QRect;
  indent : Z;
  frameWidth : Z;
  QWidget_minimumSizeHint : QSize;  (* what the base class answers *)
  effects : list Effect
}.

Definition set_m_text (v : string) (w : ElidingLabel) : ElidingLabel :=
  mkElidingLabel v (m_elidedText w) (m_description w) (m_elideMode w)
    (m_metricsLabel w) (m_filterString w) (m_filterRegex w) (text w) (toolTip w)
    (contentsRect w) (indent w) (frameWidth w) (QWidget_minimumSizeHint w) (effects w).

Definition set_m_elidedText (v : string) (w : ElidingLabel) : ElidingLabel :=
  mkElidingLabel (m_text w) v (m_description w) (m_elideMode w)
    (m_metricsLabel w) (m_filterString w) (m_filterRegex w) (text w) (toolTip w)
    (contentsRect w) (indent w) (frameWidth w) (QWidget_minimumSizeHint w) (effects w).

Definition set_m_description (v : string) (w : ElidingLabel) : ElidingLabel :=
  mkElidingLabel (m_text w) (m_elidedText w) v (m_elideMode w)
    (m_metricsLabel w) (m_filterString w) (m_filterRegex w) (text w) (toolTip w)
    (contentsRect w) (indent w) (frameWidth w) (QWidget_minimumSizeHint w) (effects w).

Definition set_m_elideMode (v : TextElideMode) (w : ElidingLabel) : ElidingLabel :=
  mkElidingLabel (m_text w) (m_elidedText w) (m_description w) v
    (m_metricsLabel w) (m_filterString w) (m_filterRegex w) (text w) (toolTip w)
    (contentsRect w) (indent w) (frameWidth w) (QWidget_minimumSizeHint w) (effects w).

Definition set_m_metricsLabel (v : string) (w : ElidingLabel) : ElidingLabel :=
  mkElidingLabel (m_text w) (m_elidedText w) (m_description w) (m_elideMode w)
    v (m_filterString w) (m_filterRegex w) (text w) (toolTip w)
    (contentsRect w) (indent w) (frameWidth w) (QWidget_minimumSizeHint w) (effects w).

Definition set_m_filterString (v : string) (w : ElidingLabel) : ElidingLabel :=
  mkElidingLabel (m_text w) (m_elidedText w) (m_description w) (m_elideMode w)
    (m_metricsLabel w) v (m_filterRegex w) (text w) (toolTip w)
    (contentsRect w) (indent w) (frameWidth w) (QWidget_minimumSizeHint w) (effects w).

Definition set_m_filterRegex (v : QRegExp) (w : ElidingLabel) : ElidingLabel :=
  mkElidingLabel (m_text w) (m_elidedText w) (m_description w) (m_elideMode w)
    (m_metricsLabel w) (m_filterString w) v (text w) (toolTip w)
    (contentsRect w) (indent w) (frameWidth w) (QWidget_minimumSizeHint w) (effects w).

(** [QLabel::setText] and [setToolTip] of the base class. *)
Definition QLabel_setText (v : string) (w : ElidingLabel) : ElidingLabel :=
  mkElidingLabel (m_text w) (m_elidedText w) (m_description w) (m_elideMode w)
    (m_metricsLabel w) (m_filterString w) (m_filterRegex w) v (toolTip w)
    (contentsRect w) (indent w) (frameWidth w) (QWidget_minimumSizeHint w) (effects w).

Definition setToolTip (v : string) (w : ElidingLabel) : ElidingLabel :=
  mkElidingLabel (m_text w) (m_elidedText w) (m_description w) (m_elideMode w)
    (m_metricsLabel w) (m_filterString w) (m_filterRegex w) (text w) v
    (contentsRect w) (indent w) (frameWidth w) (QWidget_minimumSizeHint w) (effects w).

(** The toolkit gives the widget a new contents rectangle. *)
Definition set_contentsRect (v : QRect) (w : ElidingLabel) : ElidingLabel :=
  mkElidingLabel (m_text w) (m_elidedText w) (m_description w) (m_elideMode w)
    (m_metricsLabel w) (m_filterString w) (m_filterRegex w) (text w) (toolTip w)
    v (indent w) (frameWidth w) (QWidget_minimumSizeHint w) (effects w).

(** An effect is added at the end of the record of effects. *)
Definition perform (e : Effect) (w : ElidingLabel) : ElidingLabel :=
  mkElidingLabel (m_text w) (m_elidedText w) (m_description w) (m_elideMode w)
    (m_metricsLabel w) (m_filterString w) (m_filterRegex w) (text w) (toolTip w)
    (contentsRect w) (indent w) (frameWidth w) (QWidget_minimumSizeHint w)
    (effects w ++ [e]).

(** A member function that contains a loop answers [None] when it is given
    too little fuel to finish. *)
Definition bind {A B : Type} (m : option A) (k : A -> option B) : option B :=
  match m with
  | Some a => k a
  | None => None
  end.

Notation "x <- m ;; k" := (bind m (fun x => k))
  (at level 61, m at next level, right associativity).

(** The static ellipsis of [elide]. *)
Definition ellipsis : string := "...".

Section Widget.
Variable tk : Toolkit.

(** [ElidingLabel::TextRect] *)
Definition TextRect (w : ElidingLabel) : QRect :=
  let textRect := contentsRect w in
  if indent w =? -1 then
    if negb (frameWidth w =? 0) then
      let textMargin := Z.quot (horizontalAdvance tk "x") 2 in
      adjust textMargin 0 (- textMargin) 0 textRect
    else textRect
  else textRect.

(** [doc.size().width() + ellipsisWidth > maxLineWidth] *)
Definition overflows (ellipsisWidth maxLineWidth : Z) (d : Document (Fmt tk)) : bool :=
  negb (Qle_bool (docWidth tk d + inject_Z ellipsisWidth) (inject_Z maxLineWidth)).

(** The guard of the loop of [elide]:
    [doc.size().width() + ellipsisWidth > maxLineWidth && !textCursor.atStart()]. *)
Definition deletion_guard (ellipsisWidth maxLineWidth : Z)
    (textCursor : QTextCursor (Fmt tk)) : bool :=
  overflows ellipsisWidth maxLineWidth (contents textCursor)
  && negb (atStart textCursor).

(** The loop of [elide]: while the guard holds, [deletePreviousChar]. *)
Fixpoint deletion_loop (fuel : nat) (ellipsisWidth maxLineWidth : Z)
    (textCursor : QTextCursor (Fmt tk)) : option (QTextCursor (Fmt tk)) :=
  if deletion_guard ellipsisWidth maxLineWidth textCursor then
    match fuel with
    | O => None
    | S fuel' =>
        deletion_loop fuel' ellipsisWidth maxLineWidth (deletePreviousChar textCursor)
    end
  else Some textCursor.

(** The rich-text branch of [elide], for a text that does not fit: the
    contents of the document once the loop and the insertion are done. *)
Definition elide_document (mode : TextElideMode) (maxLineWidth : Z)
    (doc : Document (Fmt tk)) : option (Document (Fmt tk)) :=
  let textCursor := movePositionEnd (cursorOn doc) in
  let ellipsisWidth :=
    if TextElideMode_eqb mode ElideRight then horizontalAdvance tk ellipsis else 0 in
  textCursor <- deletion_loop (characterCount doc) ellipsisWidth maxLineWidth textCursor ;;
  let textCursor :=
    if TextElideMode_eqb mode ElideRight
    then insertText (blockCharFormat tk) ellipsis textCursor
    else textCursor in
  Some (contents textCursor).

(** The text [elide] computes for [m_elidedText]. *)
Definition elision (txt : string) (mode : TextElideMode) (maxLineWidth : Z)
    : option string :=
  if mightBeRichText tk txt then
    let doc := setHtml tk txt in
    if Qle_bool (docWidth tk doc) (inject_Z maxLineWidth) then Some txt
    else doc' <- elide_document mode maxLineWidth doc ;; Some (toHtml tk doc')
  else Some (elidedText tk txt mode maxLineWidth).

(** The tooltip [elide] sets: [QStringLiteral("%1\n%2").arg(m_text, m_description)]
    when both parts are shown. *)
Definition newline : string := String (ascii_of_nat 10) EmptyString.

Definition elide_toolTip (w : ElidingLabel) : string :=
  if negb (String.eqb (m_elidedText w) (m_text w)) then
    if isEmpty (m_description w) then m_text w
    else (m_text w ++ newline ++ m_description w)%string
  else m_description w.

(** [ElidingLabel::elide] *)
Definition elide (w : ElidingLabel) : option ElidingLabel :=
  elided <- elision (m_text w) (m_elideMode w) (width (TextRect w)) ;;
  let w := set_m_elidedText elided w in
  let w := QLabel_setText (m_elidedText w) w in
  Some (setToolTip (elide_toolTip w) w).

(** [ElidingLabel::handleElision], the slot of [elisionRequired]. *)
Definition handleElision (geometryUpdateRequired : bool) (w : ElidingLabel)
    : option ElidingLabel :=
  let w := set_m_elidedText "" w in
  w <- elide w ;;
  Some (if geometryUpdateRequired then perform updateGeometry w else w).

(** [emit elisionRequired(b)]: the connection made in the constructor is
    a direct one, so the slot runs before [emit] returns. *)
Definition emit_elisionRequired (geometryUpdateRequired : bool) (w : ElidingLabel)
    : option ElidingLabel :=
  handleElision geometryUpdateRequired
    (perform (elisionRequired geometryUpdateRequired) w).

(** [ElidingLabel::setText] *)
Definition setText (txt : string) (w : ElidingLabel) : option ElidingLabel :=
  if String.eqb txt (m_text w) then Some w
  else
    let w := set_m_text txt w in
    let w := set_m_metricsLabel (m_text w) w in
    emit_elisionRequired true w.

(** [ElidingLabel::setDescription] *)
Definition setDescription (description : string) (w : ElidingLabel) : ElidingLabel :=
  set_m_description description w.

(** [ElidingLabel::setElideMode] *)
Definition setElideMode (mode : TextElideMode) (w : ElidingLabel) : ElidingLabel :=
  if TextElideMode_eqb (m_elideMode w) mode then w
  else perform update (set_m_elideMode mode w).

(** [ElidingLabel::resizeEvent]; [QWidget::resizeEvent] does nothing. *)
Definition resizeEvent (w : ElidingLabel) : option ElidingLabel :=
  emit_elisionRequired false w.

(** A resize: the toolkit changes the geometry, then delivers the event. *)
Definition resize (r : QRect) (w : ElidingLabel) : option ElidingLabel :=
  resizeEvent (set_contentsRect r w).

(** [ElidingLabel::minimumSizeHint] *)
Definition minimumSizeHint (w : ElidingLabel) : QSize :=
  boundedTo (QWidget_minimumSizeHint w) {| wd := 0; ht := INT_MAX |}.

(** [ElidingLabel::setFilter] *)
Definition setFilter (filter : string) (w : ElidingLabel) : ElidingLabel :=
  let w := set_m_filterString filter w in
  set_m_filterRegex (mkQRegExp (m_filterString w) CaseInsensitive) w.

(** The body of the loop of [paintEvent] for one match. *)
Definition highlight (w : ElidingLabel) (textRect : QRect) (regexIndex : Z)
    : list PaintOp :=
  let preSelectedText := qleft (Z.to_nat regexIndex) (text w) in
  let preSelectedTextLength := horizontalAdvance tk preSelectedText in
  let selectedText :=
    mid (Z.to_nat regexIndex) (String.length (m_filterString w)) (text w) in
  let selectedTextLength := horizontalAdvance tk selectedText in
  let leftSpot := left textRect + preSelectedTextLength in
  if leftSpot <? right textRect then
    let visibleLength := Z.min selectedTextLength (right textRect - leftSpot) in
    let highlightRect :=
      QRect_xywh (left textRect + preSelectedTextLength) (top textRect)
                 visibleLength (height textRect) in
    [fillRect highlightRect backgroundColor]
  else [].

(** The loop of [paintEvent]:
    [while ((regexIndex = text().indexOf(m_filterRegex, regexIndex + 1)) >= 0)]. *)
Fixpoint highlight_loop (fuel : nat) (w : ElidingLabel) (textRect : QRect)
    (regexIndex : Z) : option (list PaintOp) :=
  let regexIndex := indexOf tk (m_filterRegex w) (regexIndex + 1) (text w) in
  if regexIndex >=? 0 then
    match fuel with
    | O => None
    | S fuel' =>
        rest <- highlight_loop fuel' w textRect regexIndex ;;
        Some (highlight w textRect regexIndex ++ rest)
    end
  else Some [].

(** [ElidingLabel::paintEvent]: what is done on the painter, in order. *)
Definition paintEvent (w : ElidingLabel) : option (list PaintOp) :=
  if isEmpty (m_filterString w) then Some [QLabel_paintEvent]
  else
    let textRect := TextRect w in
    ops <- highlight_loop (S (String.length (text w))) w textRect (-1) ;;
    Some ([save] ++ ops ++ [restore; QLabel_paintEvent]).

(** [ElidingLabel::ElidingLabel]: the fields as the initialisers and the
    base class leave them (a widget without a parent is 640 by 480, a
    label has no frame and indent -1), then [setText]. *)
Definition initial : ElidingLabel :=
  {| m_text := ""; m_elidedText := ""; m_description := "";
     m_elideMode := ElideRight; m_metricsLabel := "";
     m_filterString := ""; m_filterRegex := mkQRegExp "" CaseSensitive;
     text := ""; toolTip := "";
     contentsRect := QRect_xywh 0 0 640 480; indent := -1; frameWidth := 0;
     QWidget_minimumSizeHint := {| wd := -1; ht := -1 |};
     effects := [] |}.

Definition construct (txt : string) : option ElidingLabel :=
  setText txt initial.
End Widget.

Section ElisionParts.
Variable tk : Toolkit.

(** The width [elide] reserves for the ellipsis. *)
Definition reserved (mode : TextElideMode) : Z :=
  if TextElideMode_eqb mode ElideRight then horizontalAdvance tk ellipsis else 0.

(** What [insertText(ellipsis)] adds behind the characters that are left. *)
Definition marker (kept : Document (Fmt tk)) : Document (Fmt tk) :=
  List.map
    (fun a => (a, charFormat (blockCharFormat tk)
                    (mkCursor kept (List.length kept))))
    (list_ascii_of_string ellipsis).

(** The widget [elide] leaves when the elision is [s]. *)
Definition elided_with (s : string) (w : ElidingLabel) : ElidingLabel :=
  let w1 := QLabel_setText s (set_m_elidedText s w) in
  setToolTip (elide_toolTip w1) w1.
End ElisionParts.

(** Every offset at which the expression matches, in increasing order; the
    offset behind the last character is one of the candidates. *)
Definition match_offsets (tk : Toolkit) (rx : QRegExp) (s : string) : list nat :=
  filter (matchesAt tk rx s) (seq 0 (S (String.length s))).

(** The public operations that are applied to a widget. *)
Inductive Operation : Type :=
| SetText (txt : string)
| SetDescription (description : string)
| SetElideMode (mode : TextElideMode)
| SetFilter (filter : string)
| Resize (r : QRect).

Definition apply_operation (tk : Toolkit) (op : Operation) (w : ElidingLabel)
    : option ElidingLabel :=
  match op with
  | SetText txt => setText tk txt w
  | SetDescription description => Some (setDescription description w)
  | SetElideMode mode => Some (setElideMode mode w)
  | SetFilter filter => Some (setFilter filter w)
  | Resize r => resize tk r w
  end.

Fixpoint run (tk : Toolkit) (ops : list Operation) (w : ElidingLabel)
    : option ElidingLabel :=
  match ops with
  | [] => Some w
  | op :: ops' => w' <- apply_operation tk op w ;; run tk ops' w'
  end.

(** The displayed text is the elision of the current full text for the
    current width and mode. *)
Definition displayed (tk : Toolkit) (w : ElidingLabel) : Prop :=
  elision tk (m_text w) (m_elideMode w) (width (TextRect tk w)) = Some (text w).

Definition changes_mode (op : Operation) : bool :=
  match op with SetElideMode _ => true | _ => false end.

(* ===================================================================== *)
(** ** A toolkit to run the widget on *)
(* ===================================================================== *)

(** A stand-in for the toolkit with a font whose glyphs are all one pixel
    wide, rich text with the single tag [<b>], and expressions that are
    literal strings.  It is used to evaluate the member functions on
    concrete inputs. *)
Module Mono.

Definition lower (a : ascii) : ascii :=
  let n := nat_of_ascii a in
  if (Nat.leb 65 n && Nat.leb n 90)%bool then ascii_of_nat (n + 32) else a.

Fixpoint lowered (s : string) : string :=
  match s with
  | EmptyString => EmptyString
  | String a s' => String (lower a) (lowered s')
  end.

Fixpoint contains (a : ascii) (s : string) : bool :=
  match s with
  | EmptyString => false
  | String b s' => Ascii.eqb a b || contains a s'
  end.

Definition mightBeRichText (s : string) : bool := contains "<"%char s.

Definition horizontalAdvance (s : string) : Z := Z.of_nat (String.length s).

(** The text when it fits or when nothing may be cut, else as many
    characters as fit together with the ellipsis, which is put on the
    side the mode names. *)
Definition elidedText (s : string) (mode : TextElideMode) (w : Z) : string :=
  let len := String.length s in
  if Z.of_nat len <=? w then s
  else
    let keep := Z.to_nat (w - 3) in
    match mode with
    | ElideNone => s
    | ElideRight => (substring 0 keep s ++ ellipsis)%string
    | ElideLeft => (ellipsis ++ substring (len - keep) keep s)%string
    | ElideMiddle =>
        (substring 0 (keep / 2) s ++ ellipsis
           ++ substring (len - (keep - keep / 2)) (keep - keep / 2) s)%string
    end.

(** Parsing: the characters outside tags, bold between [<b>] and [</b>]. *)
Fixpoint parse (bold : bool) (tag : option string) (s : string) : Document bool :=
  match s with
  | EmptyString => []
  | String a s' =>
      match tag with
      | None =>
          if Ascii.eqb a "<"%char then parse bold (Some EmptyString) s'
          else (a, bold) :: parse bold None s'
      | Some t =>
          if Ascii.eqb a ">"%char then
            parse (if String.eqb t "b" then true
                   else if String.eqb t "/b" then false else bold) None s'
          else parse bold (Some (t ++ String a EmptyString)%string) s'
      end
  end.

Definition setHtml (s : string) : Document bool := parse false None s.

(** Serialising: the characters, with the tag written where bold changes. *)
Fixpoint serialise (bold : bool) (d : Document bool) : string :=
  match d with
  | [] => if bold then "</b>" else EmptyString
  | (a, f) :: d' =>
      ((if Bool.eqb f bold then EmptyString else if f then "<b>" else "</b>")
         ++ String a (serialise f d'))%string
  end.

Definition toHtml (d : Document bool) : string := serialise false d.

Definition docWidth (d : Document bool) : Q := inject_Z (Z.of_nat (List.length d)).

(** A literal expression matches where the text goes on with it. *)
Definition matchesAt (rx : QRegExp) (s : string) (i : nat) : bool :=
  (Nat.leb i (String.length s)
   && match caseSensitivity rx with
      | CaseSensitive => prefix (pattern rx) (substring i (String.length s - i) s)
      | CaseInsensitive =>
          prefix (lowered (pattern rx))
                 (lowered (substring i (String.length s - i) s))
      end)%bool.

Definition toolkit : Toolkit :=
  mkToolkit mightBeRichText horizontalAdvance elidedText
            bool false setHtml docWidth toHtml matchesAt.
End Mono.

(** Widgets to evaluate on: a rich text in a wide widget, in a widget of
    width zero, and a rich text with dots of its own in a narrow widget. *)
Module Sample.
Definition wide : ElidingLabel :=
  set_m_text "Hello <b>World</b>" initial.

Definition flat : ElidingLabel :=
  set_contentsRect (QRect_xywh 0 0 0 10) wide.

Definition dotted : ElidingLabel :=
  set_contentsRect (QRect_xywh 0 0 8 10) (set_m_text "<b>a...bcdefgh</b>" initial).

Definition dotted_uncut : ElidingLabel := set_m_elideMode ElideNone dotted.

Definition plain : ElidingLabel :=
  set_contentsRect (QRect_xywh 0 0 9 10) (set_m_text "Hello World and more" initial).

(** The label showing [The Quick Fox], with the filter [qu]. *)
Definition fox : ElidingLabel :=
  setFilter "qu" (QLabel_setText "The Quick Fox" (set_m_text "The Quick Fox" initial)).

(** A rich text in a widget nine pixels wide. *)
Definition narrow : ElidingLabel :=
  set_contentsRect (QRect_xywh 0 0 9 10) wide.

(** A label to which the base class answers a minimum size of 30 by 12. *)
Definition laid_out : ElidingLabel :=
  mkElidingLabel (m_text wide) (m_elidedText wide) (m_description wide)
    (m_elideMode wide) (m_metricsLabel wide) (m_filterString wide)
    (m_filterRegex wide) (text wide) (toolTip wide) (contentsRect wide)
    (indent wide) (frameWidth wide) {| wd := 30; ht := 12 |} (effects wide).

(** A label two pixels wide showing [ab], with the filter [b]. *)
Definition edge : ElidingLabel :=
  set_contentsRect (QRect_xywh 0 0 2 10)
    (setFilter "b" (QLabel_setText "ab" (set_m_text "ab" initial))).
End Sample.

(* ===================================================================== *)
(** ** The preferred size *)
(* ===================================================================== *)

(** [QMargins], the answer of [contentsMargins()]. *)
Record QMargins : Type :=
  mkQMargins { margin_left : Z; margin_top : Z; margin_right : Z; margin_bottom : Z }.

(** [ElidingLabel::sizeHint].  The size hint of the hidden label is the
    toolkit's, a function of the text that label holds; the margins of the
    contents are the widget's. *)
Definition sizeHint (QLabel_sizeHint : string -> QSize) (contentsMargins : QMargins)
    (w : ElidingLabel) : QSize :=
  let sh := QLabel_sizeHint (m_metricsLabel w) in
  let margins := contentsMargins in
  let sh := {| wd := wd sh; ht := ht sh + (margin_top margins + margin_bottom margins) |} in
  let sh := {| wd := wd sh + (margin_left margins + margin_right margins); ht := ht sh |} in
  sh.

(** The hidden label holds the full text. *)
Definition metrics_follow (w : ElidingLabel) : Prop := m_metricsLabel w = m_text w.

Definition changes_text (op : Operation) : bool :=
  match op with SetText _ => true | _ => false end.

(** The expression is the case-insensitive one of the stored pattern, or
    no pattern was ever set. *)
Definition filter_compiled (w : ElidingLabel) : Prop :=
  m_filterRegex w = mkQRegExp (m_filterString w) CaseInsensitive
  \/ (m_filterString w = "" /\ m_filterRegex w = mkQRegExp "" CaseSensitive).

(* ===================================================================== *)
(** ** Facts *)
(* ===================================================================== *)

Lemma TextElideMode_eqb_spec (a b : TextElideMode) :
  reflect (a = b) (TextElideMode_eqb a b).
Proof. destruct a, b; simpl; constructor; congruence. Qed.

(* ===================================================================== *)
(** ** The cursor and the deletion loop *)
(* ===================================================================== *)

Section CursorFacts.
Variable F : Type.
Implicit Types (d : Document F) (c : QTextCursor F).

Lemma deletePreviousChar_position c :
  position (deletePreviousChar c) = Nat.pred (position c).
Proof. destruct c as [d [|p]]; reflexivity. Qed.

(** Deleting from the end [n] times leaves the first characters. *)
Lemma iter_delete_from_end d n :
  (n <= List.length d)%nat ->
  Nat.iter n deletePreviousChar (movePositionEnd (cursorOn d))
  = mkCursor (firstn (List.length d - n) d) (List.length d - n).
Proof.
  induction n as [|n IH]; intros Hn.
  - simpl. unfold movePositionEnd, cursorOn. simpl.
    rewrite Nat.sub_0_r, firstn_all. reflexivity.
  - rewrite Nat.iter_succ, IH by lia. unfold deletePreviousChar.
    cbn [position contents].
    destruct (List.length d - n)%nat as [|p] eqn:E; [lia|].
    replace (List.length d - S n)%nat with p by lia.
    rewrite firstn_firstn, Nat.min_l by lia.
    rewrite skipn_all2 by (rewrite length_firstn; lia).
    rewrite app_nil_r. reflexivity.
Qed.
End CursorFacts.

Section LoopFacts.
Variable tk : Toolkit.
Implicit Types (c : QTextCursor (Fmt tk)) (d : Document (Fmt tk)).

Lemma deletion_guard_at_start ew maxW c :
  position c = 0%nat -> deletion_guard tk ew maxW c = false.
Proof.
  intros H. unfold deletion_guard, atStart. rewrite H. simpl.
  apply andb_false_r.
Qed.

(** With fuel for every character before the cursor the loop leaves by
    its guard; the cursor it leaves with is the one after [n] deletions,
    and the guard held before each of them. *)
Lemma deletion_loop_exits fuel ew maxW : forall c,
  (position c <= fuel)%nat ->
  exists n : nat,
    (n <= position c)%nat
    /\ deletion_loop tk fuel ew maxW c = Some (Nat.iter n deletePreviousChar c)
    /\ deletion_guard tk ew maxW (Nat.iter n deletePreviousChar c) = false
    /\ forall k : nat, (k < n)%nat ->
         deletion_guard tk ew maxW (Nat.iter k deletePreviousChar c) = true.
Proof.
  induction fuel as [|fuel IH]; intros c Hpos; simpl;
    destruct (deletion_guard tk ew maxW c) eqn:G;
    try (exists 0%nat; simpl; repeat split; auto; try lia; intros k Hk; lia).
  - rewrite deletion_guard_at_start in G by lia. discriminate.
  - destruct (IH (deletePreviousChar c)) as (n & Hn & Hrun & Hexit & Hbefore).
    { rewrite deletePreviousChar_position. lia. }
    assert (position c <> 0%nat) as Hnz.
    { intros Hz. rewrite deletion_guard_at_start in G by exact Hz. discriminate. }
    rewrite deletePreviousChar_position in Hn.
    exists (S n). rewrite Nat.iter_succ_r. repeat split; auto; try lia.
    intros [|k] Hk; [exact G|].
    rewrite Nat.iter_succ_r. apply Hbefore. lia.
Qed.

(** More fuel than the loop needs changes nothing. *)
Lemma deletion_loop_more_fuel fuel ew maxW : forall c c',
  deletion_loop tk fuel ew maxW c = Some c' ->
  forall fuel' : nat, (fuel <= fuel')%nat ->
    deletion_loop tk fuel' ew maxW c = Some c'.
Proof.
  induction fuel as [|fuel IH]; intros c c' H fuel' Hle; simpl in H;
    destruct (deletion_guard tk ew maxW c) eqn:G; try discriminate.
  - destruct fuel'; simpl; rewrite G; exact H.
  - destruct fuel' as [|fuel']; [lia|]. simpl. rewrite G.
    apply (IH _ _ H). lia.
  - destruct fuel'; simpl; rewrite G; exact H.
Qed.

(** The loop as [elide] runs it, on a cursor put at the end. *)
Lemma deletion_loop_from_end ew maxW d :
  exists n : nat,
    (n <= List.length d)%nat
    /\ deletion_loop tk (characterCount d) ew maxW (movePositionEnd (cursorOn d))
       = Some (mkCursor (firstn (List.length d - n) d) (List.length d - n))
    /\ (overflows tk ew maxW (firstn (List.length d - n) d) = false
        \/ n = List.length d)
    /\ forall k : nat, (k < n)%nat ->
         overflows tk ew maxW (firstn (List.length d - k) d) = true.
Proof.
  destruct (deletion_loop_exits (characterCount d) ew maxW
              (movePositionEnd (cursorOn d))) as (n & Hn & Hrun & Hexit & Hbefore).
  { simpl. unfold characterCount. lia. }
  simpl in Hn. exists n. split; [exact Hn|].
  rewrite iter_delete_from_end in Hrun, Hexit by exact Hn.
  split; [exact Hrun|]. split.
  - unfold deletion_guard, atStart in Hexit. simpl in Hexit.
    apply andb_false_iff in Hexit. destruct Hexit as [H|H]; [left; exact H|].
    right. apply negb_false_iff, Nat.eqb_eq in H. lia.
  - intros k Hk. specialize (Hbefore k Hk).
    rewrite iter_delete_from_end in Hbefore by lia.
    unfold deletion_guard in Hbefore. simpl in Hbefore.
    apply andb_true_iff in Hbefore. tauto.
Qed.
End LoopFacts.

(* ===================================================================== *)
(** ** Elision *)
(* ===================================================================== *)

Section ElisionFacts.
Variable tk : Toolkit.
Implicit Types (w : ElidingLabel) (d : Document (Fmt tk)).

Lemma insertText_at_end kept s :
  contents (insertText (blockCharFormat tk) s (mkCursor kept (List.length kept)))
  = kept ++ List.map
              (fun a => (a, charFormat (blockCharFormat tk)
                              (mkCursor kept (List.length kept))))
              (list_ascii_of_string s).
Proof.
  unfold insertText. cbn [contents position].
  rewrite firstn_all, skipn_all, app_nil_r. reflexivity.
Qed.

Lemma length_firstn_sub d n :
  List.length (firstn (List.length d - n) d) = (List.length d - n)%nat.
Proof. rewrite length_firstn. lia. Qed.

(** The document of the rich-text branch: the loop ends, and what is
    serialised is what the loop left, with the marker behind it when the
    mode is [ElideRight]. *)
Lemma elide_document_result mode maxW d :
  exists n : nat,
    (n <= List.length d)%nat
    /\ deletion_loop tk (characterCount d) (reserved tk mode) maxW
         (movePositionEnd (cursorOn d))
       = Some (mkCursor (firstn (List.length d - n) d) (List.length d - n))
    /\ elide_document tk mode maxW d
       = Some (if TextElideMode_eqb mode ElideRight
               then firstn (List.length d - n) d
                    ++ marker tk (firstn (List.length d - n) d)
               else firstn (List.length d - n) d).
Proof.
  destruct (deletion_loop_from_end tk (reserved tk mode) maxW d)
    as (n & Hn & Hrun & _).
  exists n. split; [exact Hn|]. split; [exact Hrun|].
  unfold elide_document. fold (reserved tk mode). rewrite Hrun. cbn [bind].
  destruct (TextElideMode_eqb mode ElideRight); [|reflexivity].
  rewrite <- (length_firstn_sub d n) at 2.
  rewrite insertText_at_end. unfold marker.
  rewrite length_firstn_sub. reflexivity.
Qed.

Lemma elision_total txt mode maxW :
  exists s : string, elision tk txt mode maxW = Some s.
Proof.
  unfold elision. destruct (mightBeRichText tk txt); [|eauto].
  destruct (Qle_bool _ _); [eauto|].
  destruct (elide_document_result mode maxW (setHtml tk txt)) as (n & _ & _ & H).
  rewrite H. cbn [bind]. eauto.
Qed.

Lemma elide_eq w s :
  elision tk (m_text w) (m_elideMode w) (width (TextRect tk w)) = Some s ->
  elide tk w = Some (elided_with s w).
Proof. intros H. unfold elide. rewrite H. reflexivity. Qed.

Lemma elide_total w : exists w', elide tk w = Some w'.
Proof.
  destruct (elision_total (m_text w) (m_elideMode w) (width (TextRect tk w)))
    as (s & Hs).
  exists (elided_with s w). apply elide_eq, Hs.
Qed.

(** [handleElision] clears [m_elidedText] first, which [elision] does not
    read. *)
Lemma handleElision_eq b w s :
  elision tk (m_text w) (m_elideMode w) (width (TextRect tk w)) = Some s ->
  handleElision tk b w
  = Some (if b then perform updateGeometry (elided_with s (set_m_elidedText "" w))
          else elided_with s (set_m_elidedText "" w)).
Proof.
  intros H. unfold handleElision.
  rewrite (elide_eq (set_m_elidedText "" w) s) by exact H. reflexivity.
Qed.

Lemma overflows_positive ew maxW d :
  maxW <= 0 -> 0 <= ew -> (0 < docWidth tk d)%Q ->
  overflows tk ew maxW d = true.
Proof.
  intros HmaxW Hew Hd. unfold overflows. apply negb_true_iff.
  destruct (Qle_bool _ _) eqn:E; [|reflexivity].
  apply Qle_bool_iff in E.
  assert (inject_Z maxW <= 0)%Q
    by (change 0%Q with (inject_Z 0); rewrite <- Zle_Qle; exact HmaxW).
  assert (0 <= inject_Z ew)%Q
    by (change 0%Q with (inject_Z 0); rewrite <- Zle_Qle; exact Hew).
  lra.
Qed.
End ElisionFacts.

(** C2. For a rich text whose natural width on one line (document margin
    zero, wrapping off) is at most the available width, [elide] makes the
    display text the full text itself, character for character: both
    [m_elidedText] and the text of the label are [m_text], and [m_text] is
    as it was. *)
Theorem rich_text_that_fits_is_unchanged (tk : Toolkit) (w : ElidingLabel) :
  mightBeRichText tk (m_text w) = true ->
  (docWidth tk (setHtml tk (m_text w)) <= inject_Z (width (TextRect tk w)))%Q ->
  exists w' : ElidingLabel,
    elide tk w = Some w'
    /\ m_elidedText w' = m_text w
    /\ text w' = m_text w
    /\ m_text w' = m_text w.
Proof.
  intros Hrich Hfits. exists (elided_with (m_text w) w).
  split; [|repeat split].
  apply elide_eq. unfold elision. rewrite Hrich.
  apply Qle_bool_iff in Hfits. rewrite Hfits. reflexivity.
Qed.

(** C3. For a rich text that does not fit, whatever the available width
    is, the deletion loop of [elide] ends: with [n] deletions, [n] at most
    the character count of the document.  Each step deleted the character
    before the cursor, so what is left are the first characters of the
    document, and the cursor is behind them; before each step the text with
    the reserved width overflowed; at the end it fits or the cursor is at
    the start, and when it still overflows nothing is left.  With an
    available width of zero or less (glyphs having a positive width, the
    ellipsis a width that is not negative) nothing is left.  [elide] as a
    whole returns. *)
Theorem deletion_loop_terminates (tk : Toolkit) (w : ElidingLabel) :
  mightBeRichText tk (m_text w) = true ->
  Qle_bool (docWidth tk (setHtml tk (m_text w)))
           (inject_Z (width (TextRect tk w))) = false ->
  let doc := setHtml tk (m_text w) in
  let maxLineWidth := width (TextRect tk w) in
  let ellipsisWidth := reserved tk (m_elideMode w) in
  let start := movePositionEnd (cursorOn doc) in
  exists (n : nat) (c : QTextCursor (Fmt tk)),
    (n <= characterCount doc)%nat
    /\ deletion_loop tk (characterCount doc) ellipsisWidth maxLineWidth start = Some c
    /\ c = Nat.iter n deletePreviousChar start
    /\ contents c = firstn (List.length doc - n) doc
    /\ position c = (List.length doc - n)%nat
    /\ (forall k : nat, (k < n)%nat ->
          overflows tk ellipsisWidth maxLineWidth (firstn (List.length doc - k) doc)
          = true)
    /\ (overflows tk ellipsisWidth maxLineWidth (contents c) = false
        \/ atStart c = true)
    /\ (overflows tk ellipsisWidth maxLineWidth (contents c) = true ->
        contents c = [])
    /\ (maxLineWidth <= 0 -> 0 <= ellipsisWidth ->
        (forall d : Document (Fmt tk), d <> [] -> (0 < docWidth tk d)%Q) ->
        contents c = [])
    /\ exists w' : ElidingLabel, elide tk w = Some w'.
Proof.
  intros _ _ doc maxLineWidth ellipsisWidth start.
  destruct (deletion_loop_from_end tk ellipsisWidth maxLineWidth doc)
    as (n & Hn & Hrun & Hexit & Hbefore).
  assert (overflows tk ellipsisWidth maxLineWidth (firstn (List.length doc - n) doc)
          = true -> firstn (List.length doc - n) doc = []) as Hempty.
  { intros Hov. destruct Hexit as [Hfit | ->]; [congruence|].
    rewrite Nat.sub_diag. reflexivity. }
  exists n, (mkCursor (firstn (List.length doc - n) doc) (List.length doc - n)).
  cbn [contents position].
  split; [unfold characterCount; lia|].
  split; [exact Hrun|].
  split; [symmetry; apply iter_delete_from_end; exact Hn|].
  split; [reflexivity|]. split; [reflexivity|].
  split; [exact Hbefore|].
  split.
  { destruct Hexit as [Hfit | ->]; [left; exact Hfit|right].
    unfold atStart. cbn [position]. rewrite Nat.sub_diag. reflexivity. }
  split; [exact Hempty|].
  split; [|apply elide_total].
  intros HmaxW Hew Hglyph.
  destruct (firstn (List.length doc - n) doc) as [|x l] eqn:E; [reflexivity|].
  apply Hempty, overflows_positive; try assumption.
  apply Hglyph. discriminate.
Qed.

Lemma rich_text_that_fits_witness :
  exists w' : ElidingLabel,
    elide Mono.toolkit Sample.wide = Some w'
    /\ m_elidedText w' = "Hello <b>World</b>"
    /\ text w' = "Hello <b>World</b>"
    /\ m_text w' = "Hello <b>World</b>".
Proof.
  apply (rich_text_that_fits_is_unchanged Mono.toolkit Sample.wide).
  - reflexivity.
  - vm_compute. discriminate.
Defined.

Lemma deletion_loop_terminates_witness :
  exists (n : nat) (c : QTextCursor bool),
    (n <= 12)%nat
    /\ deletion_loop Mono.toolkit 12 3 0
         (movePositionEnd (cursorOn (Mono.setHtml "Hello <b>World</b>"))) = Some c
    /\ contents c = [].
Proof.
  destruct (deletion_loop_terminates Mono.toolkit Sample.flat)
    as (n & c & Hn & Hrun & _ & _ & _ & _ & _ & _ & Hflat & _).
  - reflexivity.
  - reflexivity.
  - exists n, c. split; [exact Hn|]. split; [exact Hrun|].
    apply Hflat.
    + vm_compute. discriminate.
    + vm_compute. discriminate.
    + intros d Hd. destruct d as [|x d]; [congruence|].
      unfold Qlt. cbn. lia.
Defined.

Section MarkerFacts.
Variable tk : Toolkit.
Implicit Types (d kept : Document (Fmt tk)).

Lemma toPlainText_marker kept : toPlainText (marker tk kept) = ellipsis.
Proof. reflexivity. Qed.

Lemma append_empty_r (s : string) : (s ++ "")%string = s.
Proof. induction s as [|a s IH]; [reflexivity|]. cbn. rewrite IH. reflexivity. Qed.

Lemma toPlainText_app kept d :
  toPlainText (kept ++ d) = (toPlainText kept ++ toPlainText d)%string.
Proof.
  induction kept as [|[a f] kept IH]; [reflexivity|].
  change (toPlainText (((a, f) :: kept) ++ d))
    with (String a (toPlainText (kept ++ d))).
  rewrite IH. reflexivity.
Qed.
End MarkerFacts.

(** C4.  For a rich text that does not fit, [elide] reserves the width of
    the ellipsis when the mode is [ElideRight] and zero in every other
    mode, runs the deletion loop with that width, and only after the loop,
    and only for [ElideRight], puts the ellipsis in at the cursor.  The
    display text is the serialisation of the final document, and the final
    document is the characters the loop kept, which are the first
    characters of the text, followed by the ellipsis marker exactly once for
    [ElideRight] and by no marker in every other mode, [ElideNone] among
    them.  The marker is the ellipsis the elision inserts; dots the text has
    of its own are characters of the text and stay as they are. *)
Theorem ellipsis_is_inserted_once (tk : Toolkit) (w : ElidingLabel) :
  mightBeRichText tk (m_text w) = true ->
  Qle_bool (docWidth tk (setHtml tk (m_text w)))
           (inject_Z (width (TextRect tk w))) = false ->
  let doc := setHtml tk (m_text w) in
  let maxLineWidth := width (TextRect tk w) in
  let ellipsisWidth :=
    match m_elideMode w with
    | ElideRight => horizontalAdvance tk ellipsis
    | _ => 0
    end in
  let markers :=
    match m_elideMode w with
    | ElideRight => 1%nat
    | _ => 0%nat
    end in
  exists (n : nat) (kept final : Document (Fmt tk)) (w' : ElidingLabel),
    kept = firstn (List.length doc - n) doc
    /\ deletion_loop tk (characterCount doc) ellipsisWidth maxLineWidth
         (movePositionEnd (cursorOn doc))
       = Some (mkCursor kept (List.length kept))
    /\ final = match m_elideMode w with
               | ElideRight =>
                   contents (insertText (blockCharFormat tk) ellipsis
                               (mkCursor kept (List.length kept)))
               | _ => kept
               end
    /\ final = kept ++ List.concat (repeat (marker tk kept) markers)
    /\ toPlainText (marker tk kept) = ellipsis
    /\ toPlainText final
       = (toPlainText kept ++ String.concat "" (repeat ellipsis markers))%string
    /\ elide tk w = Some w'
    /\ m_elidedText w' = toHtml tk final
    /\ text w' = toHtml tk final.
Proof.
  intros Hrich Hover doc maxLineWidth ellipsisWidth markers.
  destruct (elide_document_result tk (m_elideMode w) maxLineWidth doc)
    as (n & Hn & Hrun & Hdoc).
  assert (ellipsisWidth = reserved tk (m_elideMode w)) as ->
    by (unfold reserved; destruct (m_elideMode w); reflexivity).
  set (kept := firstn (List.length doc - n) doc) in *.
  assert (List.length kept = (List.length doc - n)%nat) as Hlen
    by apply length_firstn_sub.
  set (final := if TextElideMode_eqb (m_elideMode w) ElideRight
                then kept ++ marker tk kept else kept) in *.
  assert (elision tk (m_text w) (m_elideMode w) maxLineWidth
          = Some (toHtml tk final)) as Hel.
  { change (Qle_bool (docWidth tk doc) (inject_Z maxLineWidth) = false) in Hover.
    unfold elision. rewrite Hrich. fold doc. rewrite Hover, Hdoc. reflexivity. }
  exists n, kept, final, (elided_with (toHtml tk final) w).
  split; [reflexivity|].
  split; [rewrite Hlen; exact Hrun|].
  split.
  { subst final. rewrite insertText_at_end. fold (marker tk kept).
    destruct (m_elideMode w); reflexivity. }
  split.
  { subst final markers. destruct (m_elideMode w);
      cbn [TextElideMode_eqb repeat List.concat]; rewrite ?app_nil_r; reflexivity. }
  split; [apply toPlainText_marker|].
  split.
  { subst final markers. destruct (m_elideMode w);
      cbn [TextElideMode_eqb repeat String.concat];
      rewrite ?toPlainText_app, ?toPlainText_marker;
      try reflexivity; symmetry; apply append_empty_r. }
  split; [apply elide_eq; exact Hel|].
  split; reflexivity.
Qed.

Lemma ellipsis_is_inserted_once_witness :
  exists w' : ElidingLabel,
    elide Mono.toolkit Sample.narrow = Some w' /\ text w' = "Hello ...".
Proof.
  destruct (ellipsis_is_inserted_once Mono.toolkit Sample.narrow)
    as (n & kept & final & w' & _ & _ & _ & _ & _ & _ & Hrun & _ & Htext).
  - reflexivity.
  - reflexivity.
  - exists w'. split; [exact Hrun|].
    vm_compute in Hrun. injection Hrun as <-. reflexivity.
Defined.

(** Dots of the text's own are kept like any other character.  In a widget
    eight pixels wide, [<b>a...bcdefgh</b>] is cut to [a...b] with the
    marker behind it in the mode [ElideRight], and to [a...bcde] with no
    marker in the mode [ElideNone]. *)
Example text_keeps_its_own_dots :
  option_map text (elide Mono.toolkit Sample.dotted) = Some "<b>a...b...</b>"
  /\ option_map text (elide Mono.toolkit Sample.dotted_uncut)
     = Some "<b>a...bcde</b>".
Proof. split; reflexivity. Qed.

(* ===================================================================== *)
(** ** Tooltip, text assignment, filter and size hint *)
(* ===================================================================== *)

(** C5. [elide] always returns, and the tooltip it leaves is: when the
    display text differs from the full text, the full text if the
    description is empty, and else the full text, a line break and the
    description; when the display text is the full text, the description
    alone.  The full text and the description are as they were. *)
Theorem tooltip_policy (tk : Toolkit) (w : ElidingLabel) :
  exists w' : ElidingLabel,
    elide tk w = Some w'
    /\ m_text w' = m_text w
    /\ m_description w' = m_description w
    /\ text w' = m_elidedText w'
    /\ (text w' <> m_text w' -> m_description w' = "" -> toolTip w' = m_text w')
    /\ (text w' <> m_text w' -> m_description w' <> "" ->
        toolTip w' = (m_text w' ++ newline ++ m_description w')%string)
    /\ (text w' = m_text w' -> toolTip w' = m_description w').
Proof.
  destruct (elision_total tk (m_text w) (m_elideMode w) (width (TextRect tk w)))
    as (s & Hs).
  exists (elided_with s w). split; [apply elide_eq, Hs|].
  unfold elided_with, elide_toolTip. cbn.
  repeat split.
  - intros Hne Hd. rewrite Hd. destruct (String.eqb_spec s (m_text w)); [congruence|].
    reflexivity.
  - intros Hne Hd. destruct (String.eqb_spec s (m_text w)); [congruence|].
    destruct (m_description w); [congruence|reflexivity].
  - intros ->. rewrite String.eqb_refl. reflexivity.
Qed.

Lemma tooltip_policy_witness :
  exists w' : ElidingLabel,
    elide Mono.toolkit Sample.plain = Some w'
    /\ toolTip w' = "Hello World and more".
Proof.
  destruct (tooltip_policy Mono.toolkit Sample.plain)
    as (w' & Hrun & _ & _ & _ & Htip & _).
  exists w'. split; [exact Hrun|].
  vm_compute in Hrun. injection Hrun as <-. reflexivity.
Defined.

(** C6. [setText] with the text the widget already has returns the widget
    as it is: no signal, and stored text, text of the hidden label, display
    text and tooltip are what they were.  With another text it stores the
    text, gives it to the hidden label, and emits [elisionRequired(true)]:
    the elision is computed anew for the new text and [updateGeometry] is
    called. *)
Theorem setText_same_or_different (tk : Toolkit) (w : ElidingLabel) (txt : string) :
  (txt = m_text w -> setText tk txt w = Some w)
  /\ (txt <> m_text w ->
      exists (w' : ElidingLabel) (s : string),
        setText tk txt w = Some w'
        /\ m_text w' = txt
        /\ m_metricsLabel w' = txt
        /\ elision tk txt (m_elideMode w) (width (TextRect tk w)) = Some s
        /\ m_elidedText w' = s
        /\ text w' = s
        /\ effects w' = effects w ++ [elisionRequired true; updateGeometry]).
Proof.
  split.
  - intros ->. unfold setText. rewrite String.eqb_refl. reflexivity.
  - intros Hne. unfold setText.
    destruct (String.eqb_spec txt (m_text w)) as [E|_]; [congruence|].
    destruct (elision_total tk txt (m_elideMode w) (width (TextRect tk w)))
      as (s & Hs).
    unfold emit_elisionRequired.
    rewrite (handleElision_eq tk true _ s) by exact Hs.
    eexists; exists s. split; [reflexivity|]. cbn.
    rewrite <- app_assoc. repeat split. exact Hs.
Qed.

Lemma setText_same_or_different_witness :
  setText Mono.toolkit "Hello <b>World</b>" Sample.wide = Some Sample.wide
  /\ exists w' : ElidingLabel,
       setText Mono.toolkit "Bye" Sample.wide = Some w'
       /\ text w' = "Bye"
       /\ effects w' = [elisionRequired true; updateGeometry].
Proof.
  split.
  - apply (setText_same_or_different Mono.toolkit Sample.wide "Hello <b>World</b>").
    reflexivity.
  - destruct (setText_same_or_different Mono.toolkit Sample.wide "Bye")
      as [_ Hdiff].
    destruct Hdiff as (w' & s & Hrun & _ & _ & Hs & _ & Htext & Heff).
    + discriminate.
    + exists w'. split; [exact Hrun|]. split; [|exact Heff].
      rewrite Htext. vm_compute in Hs. injection Hs as <-. reflexivity.
Defined.

(** C9, as the code has it.  When the height the base class answers is an
    [int], the minimum size hint is that answer with the width bounded
    above by zero and the height as it is: the width is zero when the base
    width is not negative, and it is the base width itself when that is
    negative. *)
Theorem minimumSizeHint_bounds_width (w : ElidingLabel) :
  ht (QWidget_minimumSizeHint w) <= INT_MAX ->
  wd (minimumSizeHint w) = Z.min (wd (QWidget_minimumSizeHint w)) 0
  /\ ht (minimumSizeHint w) = ht (QWidget_minimumSizeHint w)
  /\ (0 <= wd (QWidget_minimumSizeHint w) -> wd (minimumSizeHint w) = 0)
  /\ (wd (QWidget_minimumSizeHint w) < 0 ->
      wd (minimumSizeHint w) = wd (QWidget_minimumSizeHint w)).
Proof.
  intros Hint. unfold minimumSizeHint, boundedTo. cbn [wd ht].
  repeat split; lia.
Qed.

Lemma minimumSizeHint_bounds_width_witness :
  QWidget_minimumSizeHint Sample.laid_out = {| wd := 30; ht := 12 |}
  /\ wd (minimumSizeHint Sample.laid_out) = 0
  /\ ht (minimumSizeHint Sample.laid_out) = 12.
Proof.
  destruct (minimumSizeHint_bounds_width Sample.laid_out)
    as (_ & Hht & Hzero & _).
  - vm_compute. discriminate.
  - split; [reflexivity|]. split; [apply Hzero; vm_compute; discriminate|exact Hht].
Defined.

(** C9 as stated fails where the base width is negative.  The base class
    answers the invalid size (-1,-1) for a widget without a layout, as the
    label is when it is constructed: the minimum size hint is then (-1,-1)
    too, and its width is not zero. *)
Lemma minimumSizeHint_width_counterexample :
  QWidget_minimumSizeHint initial = {| wd := -1; ht := -1 |}
  /\ ht (QWidget_minimumSizeHint initial) <= INT_MAX
  /\ minimumSizeHint initial = {| wd := -1; ht := -1 |}
  /\ wd (minimumSizeHint initial) <> 0.
Proof. repeat split; vm_compute; discriminate. Qed.

(** C10. [setFilter] stores the pattern and builds the case-insensitive
    expression from it, and nothing else: no effect is added (no
    [elisionRequired], no [updateGeometry], no [update]), and full text,
    elided text, display text, tooltip, description, elide mode, hidden
    label and geometry are what they were. *)
Theorem setFilter_changes_only_the_filter (w : ElidingLabel) (filter : string) :
  let w' := setFilter filter w in
  m_filterString w' = filter
  /\ m_filterRegex w' = mkQRegExp filter CaseInsensitive
  /\ effects w' = effects w
  /\ m_text w' = m_text w
  /\ m_elidedText w' = m_elidedText w
  /\ text w' = text w
  /\ toolTip w' = toolTip w
  /\ m_description w' = m_description w
  /\ m_elideMode w' = m_elideMode w
  /\ m_metricsLabel w' = m_metricsLabel w
  /\ contentsRect w' = contentsRect w
  /\ indent w' = indent w
  /\ frameWidth w' = frameWidth w
  /\ QWidget_minimumSizeHint w' = QWidget_minimumSizeHint w.
Proof. cbv zeta. unfold setFilter. cbn. repeat split. Qed.

(* ===================================================================== *)
(** ** Painting the highlights *)
(* ===================================================================== *)

Lemma findFrom_filter (p : nat -> bool) (n : nat) : forall i : nat,
  match findFrom p i n with
  | None => filter p (seq i n) = []
  | Some j =>
      (i <= j < i + n)%nat
      /\ filter p (seq i n) = j :: filter p (seq (S j) (i + n - S j))
  end.
Proof.
  induction n as [|n IH]; intros i; [reflexivity|].
  cbn [findFrom seq filter]. destruct (p i) eqn:Hp.
  - split; [lia|]. replace (i + S n - S i)%nat with n by lia. reflexivity.
  - specialize (IH (S i)). destruct (findFrom p (S i) n) as [j|]; [|exact IH].
    destruct IH as [Hj IH]. split; [lia|].
    rewrite IH. replace (S i + n - S j)%nat with (i + S n - S j)%nat by lia.
    reflexivity.
Qed.

Section PaintFacts.
Variable tk : Toolkit.

Lemma indexOf_nat (rx : QRegExp) (s : string) (i : nat) :
  indexOf tk rx (Z.of_nat i) s
  = match findFrom (matchesAt tk rx s) i (S (String.length s) - i) with
    | Some j => Z.of_nat j
    | None => -1
    end.
Proof.
  unfold indexOf.
  destruct (Z.ltb_spec (Z.of_nat i) 0) as [H|_]; [lia|].
  destruct (Z.ltb_spec (Z.of_nat i) 0) as [H|_]; [lia|]. cbn [orb].
  destruct (Z.ltb_spec (Z.of_nat (String.length s)) (Z.of_nat i)) as [H|H].
  - replace (S (String.length s) - i)%nat with 0%nat by lia. reflexivity.
  - rewrite Nat2Z.id. reflexivity.
Qed.

(** The searches of the loop, one after the other: each starts one
    behind the match before it and finds the next match; the last finds
    nothing. *)
Lemma searches_from (rx : QRegExp) (s : string) (fuel : nat) : forall i : nat,
  (S (String.length s) - i <= fuel)%nat ->
  let found := List.map Z.of_nat
                 (filter (matchesAt tk rx s) (seq i (S (String.length s) - i))) in
  List.map (fun prev => indexOf tk rx (prev + 1) s) ((Z.of_nat i - 1) :: found)
  = found ++ [-1].
Proof.
  induction fuel as [|fuel IH]; intros i Hfuel found; subst found;
    cbn [List.map]; replace (Z.of_nat i - 1 + 1) with (Z.of_nat i) by lia;
    rewrite indexOf_nat;
    pose proof (findFrom_filter (matchesAt tk rx s) (S (String.length s) - i) i) as H;
    destruct (findFrom _ i _) as [j|].
  - lia.
  - rewrite H. reflexivity.
  - destruct H as [Hj H]. rewrite H. cbn [List.map app]. f_equal.
    replace (i + (S (String.length s) - i) - S j)%nat
      with (S (String.length s) - S j)%nat by lia.
    specialize (IH (S j)). cbn zeta in IH. cbn [List.map] in IH.
    replace (Z.of_nat (S j) - 1) with (Z.of_nat j) in IH by lia.
    apply IH. lia.
  - rewrite H. reflexivity.
Qed.

(** The loop of [paintEvent] runs the body at every match, in order. *)
Lemma highlight_loop_from (w : ElidingLabel) (textRect : QRect) (fuel : nat) :
  forall i : nat,
  (S (String.length (text w)) - i <= fuel)%nat ->
  highlight_loop tk fuel w textRect (Z.of_nat i - 1)
  = Some (flat_map (highlight tk w textRect)
            (List.map Z.of_nat
               (filter (matchesAt tk (m_filterRegex w) (text w))
                  (seq i (S (String.length (text w)) - i))))).
Proof.
  induction fuel as [|fuel IH]; intros i Hfuel; cbn [highlight_loop];
    replace (Z.of_nat i - 1 + 1) with (Z.of_nat i) by lia;
    rewrite indexOf_nat;
    pose proof (findFrom_filter (matchesAt tk (m_filterRegex w) (text w))
                  (S (String.length (text w)) - i) i) as H;
    destruct (findFrom _ i _) as [j|].
  - lia.
  - rewrite H. reflexivity.
  - destruct H as [Hj H]. rewrite H.
    destruct (Z.geb_spec (Z.of_nat j) 0) as [_|Hneg]; [|lia].
    replace (Z.of_nat j) with (Z.of_nat (S j) - 1) at 1 by lia.
    rewrite IH by lia. cbn [bind List.map flat_map].
    replace (i + (S (String.length (text w)) - i) - S j)%nat
      with (S (String.length (text w)) - S j)%nat by lia.
    reflexivity.
  - rewrite H. reflexivity.
Qed.

Lemma paintEvent_with_filter (w : ElidingLabel) :
  isEmpty (m_filterString w) = false ->
  paintEvent tk w
  = Some ([save]
          ++ flat_map (highlight tk w (TextRect tk w))
               (List.map Z.of_nat (match_offsets tk (m_filterRegex w) (text w)))
          ++ [restore; QLabel_paintEvent]).
Proof.
  intros Hfilter. unfold paintEvent. rewrite Hfilter.
  change (-1) with (Z.of_nat 0 - 1).
  rewrite highlight_loop_from by lia. rewrite Nat.sub_0_r. reflexivity.
Qed.
End PaintFacts.

(** C7. With an empty filter [paintEvent] only paints the label and fills
    no rectangle.  With a filter that is not empty it returns, and between
    [save] and [restore] it runs the body of its loop at every offset at
    which the case-insensitive expression matches the displayed text, from
    left to right; the first search starts at offset 0, every further one
    at the offset of the match before it plus one, and the search after the
    last match finds nothing.  For the text [The Quick Fox] and the pattern
    [qu], matched literally without regard to case, there is exactly one
    match, at offset 4, where [Qu] stands. *)
Theorem paint_scans_every_match (tk : Toolkit) (w : ElidingLabel) :
  let found := List.map Z.of_nat (match_offsets tk (m_filterRegex w) (text w)) in
  (isEmpty (m_filterString w) = true -> paintEvent tk w = Some [QLabel_paintEvent])
  /\ (isEmpty (m_filterString w) = false ->
      paintEvent tk w
      = Some ([save] ++ flat_map (highlight tk w (TextRect tk w)) found
                ++ [restore; QLabel_paintEvent]))
  /\ List.map (fun prev => indexOf tk (m_filterRegex w) (prev + 1) (text w))
       (-1 :: found)
     = found ++ [-1]
  /\ m_filterRegex Sample.fox = mkQRegExp "qu" CaseInsensitive
  /\ text Sample.fox = "The Quick Fox"
  /\ match_offsets Mono.toolkit (m_filterRegex Sample.fox) (text Sample.fox)
     = [4%nat]
  /\ mid 4 (String.length (m_filterString Sample.fox)) (text Sample.fox)
     = "Qu".
Proof.
  intros found. split; [|split; [|split]].
  - intros Hfilter. unfold paintEvent. rewrite Hfilter. reflexivity.
  - apply paintEvent_with_filter.
  - pose proof (searches_from tk (m_filterRegex w) (text w)
                  (S (String.length (text w))) 0) as H.
    cbn zeta in H. rewrite Nat.sub_0_r in H. apply H. lia.
  - repeat split.
Qed.

Lemma paint_scans_every_match_witness :
  paintEvent Mono.toolkit Sample.wide = Some [QLabel_paintEvent]
  /\ paintEvent Mono.toolkit Sample.fox
     = Some [save; fillRect (QRect_xywh 4 0 2 480) backgroundColor;
             restore; QLabel_paintEvent].
Proof.
  split.
  - apply (paint_scans_every_match Mono.toolkit Sample.wide). reflexivity.
  - destruct (paint_scans_every_match Mono.toolkit Sample.fox)
      as (_ & Hpaint & _).
    rewrite Hpaint; reflexivity.
Defined.

(** C8, as the code has it.  For a match at [regexIndex], with the width
    of the text before it and the width of the span of the pattern's length
    measured by the font metrics: when the left edge, the left of the
    content rectangle plus the width before, is less than the right of the
    content rectangle, the body fills one rectangle, which starts at that
    left edge and at the top of the content rectangle, is as wide as the
    span but at most the distance from the left edge to the right of the
    content rectangle, stays left of that right, and is as high as the
    content rectangle.  When the left edge is at the right of the content
    rectangle or beyond it, nothing is filled.  In both cases the loop goes
    on: [paintEvent] runs the body at every match. *)
Theorem highlight_rectangle (tk : Toolkit) (w : ElidingLabel) (regexIndex : Z) :
  let textRect := TextRect tk w in
  let preSelectedTextLength :=
    horizontalAdvance tk (qleft (Z.to_nat regexIndex) (text w)) in
  let selectedTextLength :=
    horizontalAdvance tk
      (mid (Z.to_nat regexIndex) (String.length (m_filterString w)) (text w)) in
  let leftSpot := left textRect + preSelectedTextLength in
  (leftSpot < right textRect ->
   exists r : QRect,
     highlight tk w textRect regexIndex = [fillRect r backgroundColor]
     /\ left r = left textRect + preSelectedTextLength
     /\ width r = Z.min selectedTextLength (right textRect - leftSpot)
     /\ right r < right textRect
     /\ top r = top textRect
     /\ height r = height textRect)
  /\ (right textRect <= leftSpot -> highlight tk w textRect regexIndex = [])
  /\ (isEmpty (m_filterString w) = false ->
      paintEvent tk w
      = Some ([save]
              ++ flat_map (highlight tk w textRect)
                   (List.map Z.of_nat (match_offsets tk (m_filterRegex w) (text w)))
              ++ [restore; QLabel_paintEvent])).
Proof.
  intros textRect preSelectedTextLength selectedTextLength leftSpot.
  split; [|split].
  - intros Hleft. unfold highlight.
    fold preSelectedTextLength selectedTextLength. fold leftSpot.
    destruct (Z.ltb_spec leftSpot (right textRect)) as [_|H]; [|lia].
    eexists. split; [reflexivity|].
    unfold left, right, top, width, height, QRect_xywh in *. cbn [x1 x2 y1 y2].
    repeat split; lia.
  - intros Hright. unfold highlight.
    fold preSelectedTextLength selectedTextLength. fold leftSpot.
    destruct (Z.ltb_spec leftSpot (right textRect)) as [H|_]; [lia|reflexivity].
  - apply paintEvent_with_filter.
Qed.

Lemma highlight_rectangle_witness :
  (exists r : QRect,
     highlight Mono.toolkit Sample.fox (TextRect Mono.toolkit Sample.fox) 4
     = [fillRect r backgroundColor]
     /\ left r = 4 /\ width r = 2)
  /\ highlight Mono.toolkit Sample.edge (TextRect Mono.toolkit Sample.edge) 1
     = []
  /\ paintEvent Mono.toolkit Sample.edge = Some [save; restore; QLabel_paintEvent].
Proof.
  split; [|split].
  - destruct (highlight_rectangle Mono.toolkit Sample.fox 4) as (Hdraw & _).
    destruct Hdraw as (r & Hr & Hleft & Hwidth & _).
    + vm_compute. reflexivity.
    + exists r. repeat split; assumption.
  - apply (highlight_rectangle Mono.toolkit Sample.edge 1).
    vm_compute. discriminate.
  - destruct (highlight_rectangle Mono.toolkit Sample.edge 1) as (_ & _ & Hpaint).
    rewrite Hpaint; reflexivity.
Defined.

(** C8 as stated fails at the boundary: in a label two pixels wide that
    shows [ab] with the filter [b], the match is at offset 1 and its left
    edge is 1, which is the right of the content rectangle and does not
    exceed it; yet nothing is filled. *)
Lemma highlight_skipped_at_right_edge_counterexample :
  let w := Sample.edge in
  let textRect := TextRect Mono.toolkit w in
  let leftSpot :=
    left textRect + horizontalAdvance Mono.toolkit (qleft 1 (text w)) in
  match_offsets Mono.toolkit (m_filterRegex w) (text w) = [1%nat]
  /\ leftSpot = 1
  /\ right textRect = 1
  /\ ~ (right textRect < leftSpot)
  /\ highlight Mono.toolkit w textRect 1 = []
  /\ paintEvent Mono.toolkit w = Some [save; restore; QLabel_paintEvent].
Proof. cbv zeta. repeat split. vm_compute. discriminate. Qed.

(* ===================================================================== *)
(** ** Sequences of operations and the displayed text *)
(* ===================================================================== *)

Section Displayed.
Variable tk : Toolkit.

Lemma handleElision_displayed (b : bool) (w : ElidingLabel) :
  exists w' : ElidingLabel,
    handleElision tk b w = Some w' /\ displayed tk w'.
Proof.
  destruct (elision_total tk (m_text w) (m_elideMode w) (width (TextRect tk w)))
    as (s & Hs).
  rewrite (handleElision_eq tk b w s Hs).
  eexists. split; [reflexivity|].
  unfold displayed. destruct b; exact Hs.
Qed.

(** Every operation but a change of mode keeps the displayed text the
    elision of the current state. *)
Lemma apply_operation_displayed (op : Operation) (w : ElidingLabel) :
  changes_mode op = false -> displayed tk w ->
  exists w' : ElidingLabel,
    apply_operation tk op w = Some w' /\ displayed tk w'.
Proof.
  intros Hop Hw. destruct op as [txt|d|m|f|r]; cbn [apply_operation];
    try discriminate.
  - unfold setText. destruct (String.eqb txt (m_text w)); [now exists w|].
    apply handleElision_displayed.
  - eexists. split; [reflexivity|exact Hw].
  - eexists. split; [reflexivity|exact Hw].
  - apply handleElision_displayed.
Qed.

Lemma run_displayed (ops : list Operation) : forall w : ElidingLabel,
  forallb (fun op => negb (changes_mode op)) ops = true -> displayed tk w ->
  exists w' : ElidingLabel, run tk ops w = Some w' /\ displayed tk w'.
Proof.
  induction ops as [|op ops IH]; intros w Hops Hw;
    [exists w; split; [reflexivity|exact Hw]|].
  cbn [forallb] in Hops. apply andb_true_iff in Hops. destruct Hops as [Hop Hops].
  apply negb_true_iff in Hop.
  destruct (apply_operation_displayed op w Hop Hw) as (w1 & Hrun & Hw1).
  cbn [run]. rewrite Hrun. cbn [bind]. apply IH; assumption.
Qed.

(** [setElideMode] never touches the displayed text. *)
Lemma setElideMode_text (mode : TextElideMode) (w : ElidingLabel) :
  text (setElideMode mode w) = text w
  /\ m_elidedText (setElideMode mode w) = m_elidedText w.
Proof. unfold setElideMode. destruct (TextElideMode_eqb _ _); split; reflexivity. Qed.
End Displayed.

(** C1, evaluated.  A label is given the plain text [Hello World and
    more] and is resized to nine pixels: it shows [Hello ...], which is the
    elision for its state.  Then the mode is set to [ElideNone]: the mode is
    stored and [update] is called, but the label still shows [Hello ...],
    while the elision for the new state is the whole text. *)
Theorem setElideMode_leaves_the_old_display :
  exists w : ElidingLabel,
    run Mono.toolkit
      [SetText "Hello World and more"; Resize (QRect_xywh 0 0 9 10)] initial
    = Some w
    /\ displayed Mono.toolkit w
    /\ text w = "Hello ..."
    /\ run Mono.toolkit
         [SetText "Hello World and more"; Resize (QRect_xywh 0 0 9 10);
          SetElideMode ElideNone] initial
       = Some (setElideMode ElideNone w)
    /\ m_elideMode (setElideMode ElideNone w) = ElideNone
    /\ effects (setElideMode ElideNone w) = effects w ++ [update]
    /\ text (setElideMode ElideNone w) = "Hello ..."
    /\ elision Mono.toolkit (m_text (setElideMode ElideNone w)) ElideNone
         (width (TextRect Mono.toolkit (setElideMode ElideNone w)))
       = Some "Hello World and more"
    /\ ~ displayed Mono.toolkit (setElideMode ElideNone w).
Proof.
  eexists. split; [vm_compute; reflexivity|].
  repeat split. vm_compute. discriminate.
Qed.

(* ===================================================================== *)
(** ** Further facts about the operations *)
(* ===================================================================== *)

Section OperationFacts.
Variable tk : Toolkit.

(** What [handleElision] returns, written out. *)
Lemma handleElision_result (b : bool) (w : ElidingLabel) :
  exists s : string,
    elision tk (m_text w) (m_elideMode w) (width (TextRect tk w)) = Some s
    /\ handleElision tk b w
       = Some (if b then perform updateGeometry (elided_with s (set_m_elidedText "" w))
               else elided_with s (set_m_elidedText "" w)).
Proof.
  destruct (elision_total tk (m_text w) (m_elideMode w) (width (TextRect tk w)))
    as (s & Hs).
  exists s. split; [exact Hs|]. apply handleElision_eq, Hs.
Qed.

Lemma apply_operation_total (op : Operation) (w : ElidingLabel) :
  exists w' : ElidingLabel, apply_operation tk op w = Some w'.
Proof.
  destruct op as [txt|d|m|f|r]; cbn [apply_operation]; eauto.
  - unfold setText. destruct (String.eqb txt (m_text w)); [eauto|].
    unfold emit_elisionRequired.
    destruct (handleElision_result true
                (perform (elisionRequired true)
                   (set_m_metricsLabel txt (set_m_text txt w)))) as (s & _ & H).
    cbn in H |- *. rewrite H. eauto.
  - unfold resize, resizeEvent, emit_elisionRequired.
    destruct (handleElision_result false
                (perform (elisionRequired false) (set_contentsRect r w)))
      as (s & _ & H).
    rewrite H. eauto.
Qed.

Lemma apply_operation_metrics (op : Operation) (w w' : ElidingLabel) :
  metrics_follow w -> apply_operation tk op w = Some w' -> metrics_follow w'.
Proof.
  unfold metrics_follow. intros Hw Hrun.
  destruct op as [txt|d|m|f|r]; cbn [apply_operation] in Hrun.
  - unfold setText in Hrun. destruct (String.eqb txt (m_text w)).
    + injection Hrun as <-. exact Hw.
    + unfold emit_elisionRequired in Hrun.
      destruct (handleElision_result true
                  (perform (elisionRequired true)
                     (set_m_metricsLabel txt (set_m_text txt w)))) as (s & _ & H).
      cbn in H, Hrun. rewrite H in Hrun. injection Hrun as <-. reflexivity.
  - injection Hrun as <-. exact Hw.
  - injection Hrun as <-. unfold setElideMode.
    destruct (TextElideMode_eqb _ _); exact Hw.
  - injection Hrun as <-. exact Hw.
  - unfold resize, resizeEvent, emit_elisionRequired in Hrun.
    destruct (handleElision_result false
                (perform (elisionRequired false) (set_contentsRect r w)))
      as (s & _ & H).
    rewrite H in Hrun. injection Hrun as <-. exact Hw.
Qed.

Lemma run_metrics (ops : list Operation) : forall w : ElidingLabel,
  metrics_follow w ->
  exists w' : ElidingLabel, run tk ops w = Some w' /\ metrics_follow w'.
Proof.
  induction ops as [|op ops IH]; intros w Hw;
    [exists w; split; [reflexivity|exact Hw]|].
  destruct (apply_operation_total op w) as (w1 & H1).
  cbn [run]. rewrite H1. cbn [bind].
  apply IH. exact (apply_operation_metrics op w w1 Hw H1).
Qed.
End OperationFacts.

(** X1. From a state whose displayed text is the elision for that state,
    every sequence of the operations set text, set description, set filter
    and resize returns, and the displayed text is again the elision for the
    state reached. *)
Theorem operations_keep_display (tk : Toolkit) (ops : list Operation)
    (w : ElidingLabel) :
  forallb (fun op => negb (changes_mode op)) ops = true ->
  displayed tk w ->
  exists w' : ElidingLabel, run tk ops w = Some w' /\ displayed tk w'.
Proof. intros Hops Hw. exact (run_displayed tk ops w Hops Hw). Qed.

Lemma operations_keep_display_witness :
  exists w' : ElidingLabel,
    run Mono.toolkit
      [SetText "Hello <b>World</b>"; SetDescription "greeting"; SetFilter "wor";
       Resize (QRect_xywh 0 0 7 10)] initial = Some w'
    /\ displayed Mono.toolkit w'.
Proof.
  apply (operations_keep_display Mono.toolkit); reflexivity.
Defined.

(** X2. A resize returns in every state, also one whose display is stale:
    afterwards the displayed text is the elision for the new rectangle.  It
    emits [elisionRequired(false)] and nothing else, so [updateGeometry] is
    not called, and full text, description, mode, filter and hidden label
    are as they were. *)
Theorem resize_recomputes_display (tk : Toolkit) (r : QRect) (w : ElidingLabel) :
  exists w' : ElidingLabel,
    resize tk r w = Some w'
    /\ displayed tk w'
    /\ contentsRect w' = r
    /\ effects w' = effects w ++ [elisionRequired false]
    /\ m_text w' = m_text w
    /\ m_description w' = m_description w
    /\ m_elideMode w' = m_elideMode w
    /\ m_filterString w' = m_filterString w
    /\ m_filterRegex w' = m_filterRegex w
    /\ m_metricsLabel w' = m_metricsLabel w.
Proof.
  unfold resize, resizeEvent, emit_elisionRequired.
  destruct (handleElision_result tk false
              (perform (elisionRequired false) (set_contentsRect r w)))
    as (s & Hs & H).
  rewrite H. eexists. split; [reflexivity|].
  split; [exact Hs|]. repeat split.
Qed.

(** X3. Setting the same text twice is setting it once: on the state a
    [setText] returns, the same [setText] returns that state, with no
    further signal. *)
Theorem setText_twice (tk : Toolkit) (txt : string) (w w' : ElidingLabel) :
  setText tk txt w = Some w' -> setText tk txt w' = Some w'.
Proof.
  intros Hrun.
  assert (m_text w' = txt) as Htxt.
  { unfold setText in Hrun. destruct (String.eqb_spec txt (m_text w)) as [E|_].
    - injection Hrun as <-. symmetry. exact E.
    - unfold emit_elisionRequired in Hrun.
      destruct (handleElision_result tk true
                  (perform (elisionRequired true)
                     (set_m_metricsLabel txt (set_m_text txt w)))) as (s & _ & H).
      cbn in H, Hrun. rewrite H in Hrun. injection Hrun as <-. reflexivity. }
  unfold setText. rewrite Htxt, String.eqb_refl. reflexivity.
Qed.

Lemma setText_twice_witness :
  exists w' : ElidingLabel,
    setText Mono.toolkit "Bye" Sample.wide = Some w'
    /\ setText Mono.toolkit "Bye" w' = Some w'.
Proof.
  destruct (setText Mono.toolkit "Bye" Sample.wide) as [w'|] eqn:E.
  - exists w'. split; [reflexivity|].
    apply (setText_twice Mono.toolkit "Bye" Sample.wide w'). exact E.
  - vm_compute in E. discriminate E.
Defined.

(** X4. Recomputing again changes nothing: on the state [handleElision(false)]
    returns, [handleElision(false)] returns that very state.  So a second
    resize to the same rectangle only adds its signal to the effects. *)
Theorem recompute_is_idempotent (tk : Toolkit) (r : QRect) (w w1 : ElidingLabel) :
  (handleElision tk false w = Some w1 -> handleElision tk false w1 = Some w1)
  /\ (resize tk r w = Some w1 ->
      resize tk r w1 = Some (perform (elisionRequired false) w1)).
Proof.
  split.
  - intros Hrun.
    destruct (handleElision_result tk false w) as (s & Hs & H).
    rewrite H in Hrun. injection Hrun as <-.
    rewrite (handleElision_eq tk false _ s) by exact Hs. reflexivity.
  - unfold resize, resizeEvent, emit_elisionRequired. intros Hrun.
    destruct (handleElision_result tk false
                (perform (elisionRequired false) (set_contentsRect r w)))
      as (s & Hs & H).
    rewrite H in Hrun. injection Hrun as <-.
    rewrite (handleElision_eq tk false _ s) by exact Hs. reflexivity.
Qed.

Lemma recompute_is_idempotent_witness :
  exists w1 : ElidingLabel,
    resize Mono.toolkit (QRect_xywh 0 0 9 10) Sample.wide = Some w1
    /\ resize Mono.toolkit (QRect_xywh 0 0 9 10) w1
       = Some (perform (elisionRequired false) w1).
Proof.
  destruct (resize Mono.toolkit (QRect_xywh 0 0 9 10) Sample.wide) as [w1|] eqn:E.
  - exists w1. split; [reflexivity|].
    apply (recompute_is_idempotent Mono.toolkit (QRect_xywh 0 0 9 10) Sample.wide w1).
    exact E.
  - vm_compute in E. discriminate E.
Defined.

(** The state an operation returns, one case per operation; [Hrun] is the
    run, [w] the state before it. *)
Ltac operation_cases tk op w Hrun :=
  let s := fresh "s" in
  let Hs := fresh "Hs" in
  let H := fresh "H" in
  let txt := fresh "txt" in
  let r := fresh "r" in
  destruct op as [txt | ? | ? | ? | r]; cbn [apply_operation] in Hrun;
  [ unfold setText in Hrun; destruct (String.eqb_spec txt (m_text w));
    [ injection Hrun as <-
    | unfold emit_elisionRequired in Hrun;
      destruct (handleElision_result tk true
                  (perform (elisionRequired true)
                     (set_m_metricsLabel txt (set_m_text txt w)))) as (s & Hs & H);
      cbn in H, Hrun; rewrite H in Hrun; injection Hrun as <- ]
  | injection Hrun as <-
  | injection Hrun as <-; unfold setElideMode;
    destruct (TextElideMode_eqb (m_elideMode w) _)
  | injection Hrun as <-
  | unfold resize, resizeEvent, emit_elisionRequired in Hrun;
    destruct (handleElision_result tk false
                (perform (elisionRequired false) (set_contentsRect r w)))
      as (s & Hs & H);
    rewrite H in Hrun; injection Hrun as <- ].

Section InvariantFacts.
Variable tk : Toolkit.

Lemma apply_operation_filter (op : Operation) (w w' : ElidingLabel) :
  filter_compiled w -> apply_operation tk op w = Some w' -> filter_compiled w'.
Proof.
  unfold filter_compiled. intros Hw Hrun.
  operation_cases tk op w Hrun; try exact Hw.
  left. reflexivity.
Qed.

Lemma apply_operation_hints (op : Operation) (w w' : ElidingLabel) :
  apply_operation tk op w = Some w' ->
  QWidget_minimumSizeHint w' = QWidget_minimumSizeHint w
  /\ (changes_text op = false -> m_metricsLabel w' = m_metricsLabel w).
Proof.
  intros Hrun.
  operation_cases tk op w Hrun; split; try reflexivity; discriminate.
Qed.

Lemma run_invariant (P : ElidingLabel -> Prop)
    (step : forall op w w', P w -> apply_operation tk op w = Some w' -> P w')
    (ops : list Operation) : forall w : ElidingLabel,
  P w -> exists w' : ElidingLabel, run tk ops w = Some w' /\ P w'.
Proof.
  induction ops as [|op ops IH]; intros w Hw;
    [exists w; split; [reflexivity|exact Hw]|].
  destruct (apply_operation_total tk op w) as (w1 & H1).
  cbn [run]. rewrite H1. cbn [bind]. apply IH. exact (step op w w1 Hw H1).
Qed.
End InvariantFacts.

(** X5. Every sequence of operations returns, from every state; and when
    the hidden label held the full text before, it holds the full text of
    the state reached: only [setText] writes either, and it writes both. *)
Theorem hidden_label_holds_full_text (tk : Toolkit) (ops : list Operation)
    (w : ElidingLabel) :
  (exists w' : ElidingLabel, run tk ops w = Some w')
  /\ (m_metricsLabel w = m_text w ->
      exists w' : ElidingLabel,
        run tk ops w = Some w' /\ m_metricsLabel w' = m_text w').
Proof.
  split.
  - destruct (run_invariant tk (fun _ => True) (fun _ _ _ _ _ => I) ops w I)
      as (w' & H & _). eauto.
  - intros Hw. exact (run_metrics tk ops w Hw).
Qed.

Lemma hidden_label_holds_full_text_witness :
  exists w' : ElidingLabel,
    run Mono.toolkit
      [SetText "a <b>b</b>"; SetElideMode ElideNone; Resize (QRect_xywh 0 0 2 10);
       SetText "c"] initial = Some w'
    /\ m_metricsLabel w' = m_text w'.
Proof.
  apply (hidden_label_holds_full_text Mono.toolkit). reflexivity.
Defined.

(** X6. In every state reached from the initial one, the preferred size is
    the size hint the toolkit gives for the full, un-elided text, with the
    margins of the contents added: left and right to the width, top and
    bottom to the height.  The width of the widget and the displayed text do
    not enter. *)
Theorem sizeHint_is_of_full_text (tk : Toolkit) (QLabel_sizeHint : string -> QSize)
    (contentsMargins : QMargins) (ops : list Operation) (w : ElidingLabel) :
  run tk ops initial = Some w ->
  sizeHint QLabel_sizeHint contentsMargins w
  = {| wd := wd (QLabel_sizeHint (m_text w))
             + (margin_left contentsMargins + margin_right contentsMargins);
       ht := ht (QLabel_sizeHint (m_text w))
             + (margin_top contentsMargins + margin_bottom contentsMargins) |}.
Proof.
  intros Hrun.
  destruct (run_metrics tk ops initial) as (w' & Hrun' & Hw'); [reflexivity|].
  rewrite Hrun in Hrun'. injection Hrun' as <-.
  unfold sizeHint. cbn zeta. cbn [wd ht]. rewrite Hw'. reflexivity.
Qed.

Lemma sizeHint_is_of_full_text_witness :
  sizeHint (fun s => {| wd := Z.of_nat (String.length s); ht := 12 |})
    (mkQMargins 1 2 3 4) (setElideMode ElideNone initial)
  = {| wd := 0 + (1 + 3); ht := 12 + (2 + 4) |}.
Proof.
  apply (sizeHint_is_of_full_text Mono.toolkit
           (fun s => {| wd := Z.of_nat (String.length s); ht := 12 |})
           (mkQMargins 1 2 3 4) [SetElideMode ElideNone]).
  reflexivity.
Defined.

(** X7. No operation changes the minimum size hint, and no operation but
    [setText] changes the preferred size: a resize, a change of mode, of
    filter or of description leaves both as they are. *)
Theorem size_hints_change_only_with_text (tk : Toolkit)
    (QLabel_sizeHint : string -> QSize) (contentsMargins : QMargins)
    (op : Operation) (w w' : ElidingLabel) :
  apply_operation tk op w = Some w' ->
  minimumSizeHint w' = minimumSizeHint w
  /\ (changes_text op = false ->
      sizeHint QLabel_sizeHint contentsMargins w'
      = sizeHint QLabel_sizeHint contentsMargins w).
Proof.
  intros Hrun. destruct (apply_operation_hints tk op w w' Hrun) as [Hmin Hpref].
  split.
  - unfold minimumSizeHint. rewrite Hmin. reflexivity.
  - intros Hop. unfold sizeHint. rewrite (Hpref Hop). reflexivity.
Qed.

Lemma size_hints_change_only_with_text_witness :
  exists w' : ElidingLabel,
    resize Mono.toolkit (QRect_xywh 0 0 3 10) Sample.plain = Some w'
    /\ minimumSizeHint w' = minimumSizeHint Sample.plain.
Proof.
  destruct (resize Mono.toolkit (QRect_xywh 0 0 3 10) Sample.plain) as [w'|] eqn:E.
  - exists w'. split; [reflexivity|].
    apply (size_hints_change_only_with_text Mono.toolkit (fun _ => mkQSize 0 0)
             (mkQMargins 0 0 0 0) (Resize (QRect_xywh 0 0 3 10)) Sample.plain w').
    exact E.
  - vm_compute in E. discriminate E.
Defined.

(** X8. The constructor returns for every text.  With the empty text its
    [setText] sees no change: no signal is emitted, the elision is not
    computed, and the widget is the initial one.  With any other text the
    text is stored and given to the hidden label, [elisionRequired(true)]
    and [updateGeometry] happen once, and the displayed text is the elision
    of the text.  The mode is [ElideRight] in both cases. *)
Theorem constructor_behaviour (tk : Toolkit) (txt : string) :
  exists w : ElidingLabel,
    construct tk txt = Some w
    /\ m_text w = txt
    /\ m_metricsLabel w = txt
    /\ m_elideMode w = ElideRight
    /\ m_description w = ""
    /\ m_filterString w = ""
    /\ effects w = (if isEmpty txt then []
                    else [elisionRequired true; updateGeometry])
    /\ (isEmpty txt = true -> w = initial)
    /\ (isEmpty txt = false -> displayed tk w).
Proof.
  unfold construct, setText. destruct txt as [|a txt].
  - exists initial. cbn. repeat split. discriminate.
  - cbn [m_text initial String.eqb]. unfold emit_elisionRequired.
    destruct (handleElision_result tk true
                (perform (elisionRequired true)
                   (set_m_metricsLabel (String a txt)
                      (set_m_text (String a txt) initial)))) as (s & Hs & H).
    cbn in H |- *. rewrite H. eexists. split; [reflexivity|].
    cbn. repeat split; try discriminate. intros _. exact Hs.
Qed.

(* ===================================================================== *)
(** ** Further facts about painting *)
(* ===================================================================== *)

Lemma length_flat_map_le {A B : Type} (f : A -> list B) (l : list A) :
  (forall a : A, (List.length (f a) <= 1)%nat) ->
  (List.length (flat_map f l) <= List.length l)%nat.
Proof.
  intros Hf. induction l as [|a l IH]; [reflexivity|].
  cbn [flat_map]. rewrite length_app. specialize (Hf a). cbn [List.length]. lia.
Qed.

Lemma filter_nil_on {A : Type} (p : A -> bool) (l : list A) :
  (forall a : A, In a l -> p a = false) -> filter p l = [].
Proof.
  induction l as [|a l IH]; intros Hp; [reflexivity|].
  cbn [filter]. rewrite (Hp a) by (left; reflexivity).
  apply IH. intros b Hb. apply Hp. right. exact Hb.
Qed.

Section PaintShape.
Variable tk : Toolkit.

Lemma highlight_fills (w : ElidingLabel) (textRect : QRect) (regexIndex : Z)
    (op : PaintOp) :
  In op (highlight tk w textRect regexIndex) ->
  exists r : QRect,
    op = fillRect r backgroundColor
    /\ top r = top textRect
    /\ height r = height textRect
    /\ right r < right textRect.
Proof.
  unfold highlight.
  destruct (Z.ltb_spec
              (left textRect
               + horizontalAdvance tk (qleft (Z.to_nat regexIndex) (text w)))
              (right textRect)) as [Hlt|_]; [|intros []].
  intros [<-|[]]. eexists. split; [reflexivity|].
  unfold left, right, top, height, QRect_xywh in *. cbn [x1 x2 y1 y2].
  repeat split; lia.
Qed.

Lemma highlight_at_most_one (w : ElidingLabel) (textRect : QRect) (regexIndex : Z) :
  (List.length (highlight tk w textRect regexIndex) <= 1)%nat.
Proof. unfold highlight. destruct (_ <? _); cbn; lia. Qed.
End PaintShape.

(** X9. [paintEvent] returns in every state, and the last thing it does is
    paint the label, so the highlights lie under the text.  With a filter
    it does [save], then fills rectangles, then [restore]: at most one
    rectangle per offset of the displayed text, each in the highlight
    colour, each with the top and the height of the text rectangle, and
    each ending left of the right of the text rectangle. *)
Theorem paintEvent_shape (tk : Toolkit) (w : ElidingLabel) :
  exists ops before : list PaintOp,
    paintEvent tk w = Some ops
    /\ ops = before ++ [QLabel_paintEvent]
    /\ (isEmpty (m_filterString w) = true -> before = [])
    /\ (isEmpty (m_filterString w) = false ->
        exists fills : list PaintOp,
          before = [save] ++ fills ++ [restore]
          /\ (List.length fills <= S (String.length (text w)))%nat
          /\ forall op : PaintOp, In op fills ->
               exists r : QRect,
                 op = fillRect r backgroundColor
                 /\ top r = top (TextRect tk w)
                 /\ height r = height (TextRect tk w)
                 /\ right r < right (TextRect tk w)).
Proof.
  destruct (isEmpty (m_filterString w)) eqn:Hfilter.
  - exists [QLabel_paintEvent], []. unfold paintEvent. rewrite Hfilter.
    repeat split. discriminate.
  - set (fills := flat_map (highlight tk w (TextRect tk w))
                    (List.map Z.of_nat
                       (match_offsets tk (m_filterRegex w) (text w)))).
    exists ([save] ++ fills ++ [restore; QLabel_paintEvent]),
           ([save] ++ fills ++ [restore]).
    split; [apply paintEvent_with_filter; exact Hfilter|].
    split; [cbn [app]; rewrite <- app_assoc; reflexivity|].
    split; [discriminate|]. intros _. exists fills.
    split; [reflexivity|]. split.
    + subst fills.
      eapply Nat.le_trans; [apply length_flat_map_le, highlight_at_most_one|].
      rewrite length_map. unfold match_offsets.
      eapply Nat.le_trans; [apply filter_length_le|]. rewrite length_seq. lia.
    + intros op Hop. subst fills. apply in_flat_map in Hop.
      destruct Hop as (i & _ & Hop). exact (highlight_fills tk w _ i op Hop).
Qed.

(** X10. When the expression matches at no offset of the displayed text,
    a filter that is not empty paints nothing of its own: [paintEvent] does
    [save] and [restore] and then paints the label. *)
Theorem paintEvent_without_match (tk : Toolkit) (w : ElidingLabel) :
  isEmpty (m_filterString w) = false ->
  (forall i : nat, (i <= String.length (text w))%nat ->
     matchesAt tk (m_filterRegex w) (text w) i = false) ->
  paintEvent tk w = Some [save; restore; QLabel_paintEvent].
Proof.
  intros Hfilter Hnone. rewrite paintEvent_with_filter by exact Hfilter.
  unfold match_offsets. rewrite filter_nil_on; [reflexivity|].
  intros i Hi. apply in_seq in Hi. apply Hnone. lia.
Qed.

Lemma paintEvent_without_match_witness :
  paintEvent Mono.toolkit (setFilter "cat" Sample.fox)
  = Some [save; restore; QLabel_paintEvent].
Proof.
  apply (paintEvent_without_match Mono.toolkit (setFilter "cat" Sample.fox)).
  - reflexivity.
  - intros i Hi. cbn [text setFilter Sample.fox set_m_filterRegex set_m_filterString
                        QLabel_setText String.length] in Hi.
    do 14 (destruct i as [|i]; [reflexivity|]). lia.
Defined.

(** X11. In every state reached from the initial one, a filter that is not
    empty is matched by the case-insensitive expression of exactly that
    pattern: [paintEvent] fills its rectangles at the offsets where
    [QRegExp(m_filterString, Qt::CaseInsensitive)] matches the displayed
    text. *)
Theorem paint_uses_the_pattern_set_last (tk : Toolkit) (ops : list Operation)
    (w : ElidingLabel) :
  run tk ops initial = Some w ->
  isEmpty (m_filterString w) = false ->
  m_filterRegex w = mkQRegExp (m_filterString w) CaseInsensitive
  /\ paintEvent tk w
     = Some ([save]
             ++ flat_map (highlight tk w (TextRect tk w))
                  (List.map Z.of_nat
                     (match_offsets tk (mkQRegExp (m_filterString w) CaseInsensitive)
                        (text w)))
             ++ [restore; QLabel_paintEvent]).
Proof.
  intros Hrun Hfilter.
  destruct (run_invariant tk filter_compiled (apply_operation_filter tk) ops initial)
    as (w' & Hrun' & Hw').
  { right. split; reflexivity. }
  rewrite Hrun in Hrun'. injection Hrun' as <-.
  assert (m_filterRegex w = mkQRegExp (m_filterString w) CaseInsensitive) as Hrx.
  { destruct Hw' as [H|[H _]]; [exact H|]. rewrite H in Hfilter. discriminate. }
  split; [exact Hrx|].
  rewrite paintEvent_with_filter by exact Hfilter. rewrite <- Hrx. reflexivity.
Qed.

Lemma paint_uses_the_pattern_set_last_witness :
  exists w : ElidingLabel,
    run Mono.toolkit [SetText "The Quick Fox"; SetFilter "QU"] initial = Some w
    /\ paintEvent Mono.toolkit w
       = Some [save; fillRect (QRect_xywh 4 0 2 480) backgroundColor;
               restore; QLabel_paintEvent].
Proof.
  destruct (run Mono.toolkit [SetText "The Quick Fox"; SetFilter "QU"] initial)
    as [w|] eqn:E.
  - exists w. split; [reflexivity|].
    destruct (paint_uses_the_pattern_set_last Mono.toolkit
                [SetText "The Quick Fox"; SetFilter "QU"] w E) as [_ Hpaint].
    + vm_compute in E. injection E as <-. reflexivity.
    + rewrite Hpaint. vm_compute in E. injection E as <-. reflexivity.
  - vm_compute in E. discriminate E.
Defined.

(* ===================================================================== *)
(** ** Further facts about the elision *)
(* ===================================================================== *)

(** X12. For a rich text that fits, [elide] shows the text itself and the
    tooltip is the description alone: with no description there is no
    tooltip. *)
Theorem rich_text_that_fits_has_no_tooltip_of_its_own (tk : Toolkit)
    (w : ElidingLabel) :
  mightBeRichText tk (m_text w) = true ->
  (docWidth tk (setHtml tk (m_text w)) <= inject_Z (width (TextRect tk w)))%Q ->
  exists w' : ElidingLabel,
    elide tk w = Some w'
    /\ text w' = m_text w
    /\ toolTip w' = m_description w
    /\ (m_description w = "" -> toolTip w' = "").
Proof.
  intros Hrich Hfits. exists (elided_with (m_text w) w).
  split.
  - apply elide_eq. unfold elision. rewrite Hrich.
    apply Qle_bool_iff in Hfits. rewrite Hfits. reflexivity.
  - unfold elided_with, elide_toolTip. cbn. rewrite String.eqb_refl. cbn.
    repeat split. intros ->. reflexivity.
Qed.

Lemma rich_text_that_fits_has_no_tooltip_of_its_own_witness :
  exists w' : ElidingLabel,
    elide Mono.toolkit Sample.wide = Some w'
    /\ text w' = "Hello <b>World</b>"
    /\ toolTip w' = ""
    /\ ("" = "" -> toolTip w' = "").
Proof.
  apply (rich_text_that_fits_has_no_tooltip_of_its_own Mono.toolkit Sample.wide).
  - reflexivity.
  - vm_compute. discriminate.
Defined.

Section FlatFacts.
Variable tk : Toolkit.

(** With no room at all the loop deletes everything. *)
Lemma elide_document_flat (mode : TextElideMode) (maxW : Z)
    (d : Document (Fmt tk)) :
  maxW <= 0 ->
  0 <= horizontalAdvance tk ellipsis ->
  (forall d' : Document (Fmt tk), d' <> [] -> (0 < docWidth tk d')%Q) ->
  elide_document tk mode maxW d
  = Some (if TextElideMode_eqb mode ElideRight then marker tk [] else []).
Proof.
  intros HmaxW Hew Hglyph.
  destruct (deletion_loop_from_end tk (reserved tk mode) maxW d)
    as (n & Hn & Hrun & Hexit & _).
  assert (0 <= reserved tk mode) as Hres
    by (unfold reserved; destruct (TextElideMode_eqb mode ElideRight); lia).
  assert (n = List.length d) as ->.
  { destruct Hexit as [Hfit|Hall]; [|exact Hall].
    destruct (firstn (List.length d - n) d) as [|x l] eqn:E.
    - apply (f_equal (@List.length _)) in E.
      rewrite length_firstn_sub in E. cbn in E. lia.
    - rewrite overflows_positive in Hfit; try assumption; [discriminate|].
      apply Hglyph. discriminate. }
  rewrite Nat.sub_diag in Hrun. cbn [firstn] in Hrun.
  unfold elide_document. fold (reserved tk mode). rewrite Hrun. cbn [bind].
  destruct (TextElideMode_eqb mode ElideRight); reflexivity.
Qed.
End FlatFacts.

(** X13. A rich text that does not fit a widget with no width, or with a
    negative one, is deleted entirely (glyphs having a positive width, the
    ellipsis a width that is not negative): in the mode [ElideRight] the
    display text is the serialisation of the ellipsis alone, in every other
    mode that of the empty document.  [elide] returns; nothing fails. *)
Theorem no_width_leaves_only_the_ellipsis (tk : Toolkit) (w : ElidingLabel) :
  mightBeRichText tk (m_text w) = true ->
  Qle_bool (docWidth tk (setHtml tk (m_text w)))
           (inject_Z (width (TextRect tk w))) = false ->
  width (TextRect tk w) <= 0 ->
  0 <= horizontalAdvance tk ellipsis ->
  (forall d : Document (Fmt tk), d <> [] -> (0 < docWidth tk d)%Q) ->
  exists w' : ElidingLabel,
    elide tk w = Some w'
    /\ text w'
       = toHtml tk
           (match m_elideMode w with
            | ElideRight =>
                List.map (fun a => (a, blockCharFormat tk))
                  (list_ascii_of_string ellipsis)
            | _ => []
            end).
Proof.
  intros Hrich Hover Hwidth Hew Hglyph.
  eexists. split.
  - apply elide_eq. unfold elision. rewrite Hrich, Hover.
    rewrite elide_document_flat by assumption. reflexivity.
  - destruct (m_elideMode w); reflexivity.
Qed.

Lemma no_width_leaves_only_the_ellipsis_witness :
  exists w' : ElidingLabel,
    elide Mono.toolkit Sample.flat = Some w' /\ text w' = "...".
Proof.
  apply (no_width_leaves_only_the_ellipsis Mono.toolkit Sample.flat).
  - reflexivity.
  - reflexivity.
  - vm_compute. discriminate.
  - vm_compute. discriminate.
  - intros d Hd. destruct d as [|x d]; [congruence|].
    unfold Qlt. cbn. lia.
Defined.

(** X14. [setDescription] only stores the description: tooltip, displayed
    text and effects are as they were, so the tooltip does not show the new
    description yet.  The next recompute brings it in: the tooltip is then
    the description when the text is shown whole, and the full text (with
    the description on a second line, if there is one) when it is not. *)
Theorem description_reaches_tooltip_at_next_recompute (tk : Toolkit)
    (description : string) (b : bool) (w : ElidingLabel) :
  toolTip (setDescription description w) = toolTip w
  /\ text (setDescription description w) = text w
  /\ effects (setDescription description w) = effects w
  /\ exists w' : ElidingLabel,
       handleElision tk b (setDescription description w) = Some w'
       /\ m_description w' = description
       /\ m_text w' = m_text w
       /\ (text w' = m_text w -> toolTip w' = description)
       /\ (text w' <> m_text w ->
           toolTip w' = if isEmpty description then m_text w
                        else (m_text w ++ newline ++ description)%string).
Proof.
  split; [reflexivity|]. split; [reflexivity|]. split; [reflexivity|].
  destruct (handleElision_result tk b (setDescription description w))
    as (s & _ & H).
  rewrite H. eexists. split; [reflexivity|].
  destruct b; cbn; unfold elide_toolTip; cbn;
    (repeat split;
     [ intros ->; rewrite String.eqb_refl; reflexivity
     | intros Hne; destruct (String.eqb_spec s (m_text w)); [congruence|reflexivity] ]).
Qed.

(** X15. The text rectangle has the top and the height of the contents
    rectangle.  For a label with an indent of its own or without a frame it
    is the contents rectangle; otherwise, the width of [x] being not
    negative, it is the contents rectangle made narrower by half that width,
    rounded down, on both sides. *)
Theorem TextRect_in_contentsRect (tk : Toolkit) (w : ElidingLabel) :
  0 <= horizontalAdvance tk "x" ->
  let textMargin := Z.quot (horizontalAdvance tk "x") 2 in
  top (TextRect tk w) = top (contentsRect w)
  /\ height (TextRect tk w) = height (contentsRect w)
  /\ left (contentsRect w) <= left (TextRect tk w)
  /\ right (TextRect tk w) <= right (contentsRect w)
  /\ left (TextRect tk w) - left (contentsRect w)
     = right (contentsRect w) - right (TextRect tk w)
  /\ (indent w <> -1 \/ frameWidth w = 0 -> TextRect tk w = contentsRect w)
  /\ (indent w = -1 -> frameWidth w <> 0 ->
      left (TextRect tk w) = left (contentsRect w) + textMargin
      /\ width (TextRect tk w) = width (contentsRect w) - 2 * textMargin).
Proof.
  intros Hx textMargin.
  assert (0 <= textMargin) as Hm by (apply Z.quot_pos; lia).
  unfold TextRect. fold textMargin.
  destruct (Z.eqb_spec (indent w) (-1)) as [Hi|Hi];
    [destruct (Z.eqb_spec (frameWidth w) 0) as [Hf|Hf]|];
    cbn [negb]; unfold left, right, top, width, height, adjust; cbn [x1 x2 y1 y2];
    repeat split; try lia; try reflexivity; try tauto.
Qed.

Lemma TextRect_in_contentsRect_witness :
  TextRect Mono.toolkit Sample.edge = contentsRect Sample.edge.
Proof.
  apply (TextRect_in_contentsRect Mono.toolkit Sample.edge).
  - vm_compute. discriminate.
  - right. reflexivity.
Defined.

Lemma constructor_behaviour_witness :
  exists w : ElidingLabel,
    construct Mono.toolkit "Hello World and more" = Some w
    /\ effects w = [elisionRequired true; updateGeometry]
    /\ displayed Mono.toolkit w.
Proof.
  destruct (constructor_behaviour Mono.toolkit "Hello World and more")
    as (w & Hrun & _ & _ & _ & _ & _ & Heff & _ & Hshown).
  exists w. split; [exact Hrun|]. split; [exact Heff|].
  apply Hshown. reflexivity.
Defined.

Lemma paintEvent_shape_witness :
  exists ops fills : list PaintOp,
    paintEvent Mono.toolkit Sample.fox = Some ops
    /\ ops = [save] ++ fills ++ [restore] ++ [QLabel_paintEvent]
    /\ (List.length fills <= 14)%nat.
Proof.
  destruct (paintEvent_shape Mono.toolkit Sample.fox)
    as (ops & before & Hrun & Hops & _ & Hfills).
  destruct Hfills as (fills & Hbefore & Hlen & _); [reflexivity|].
  exists ops, fills. split; [exact Hrun|]. split; [|exact Hlen].
  rewrite Hops, Hbefore. rewrite <- !app_assoc. reflexivity.
Defined.

Lemma description_reaches_tooltip_at_next_recompute_witness :
  toolTip (setDescription "a greeting" Sample.plain) = ""
  /\ exists w' : ElidingLabel,
       handleElision Mono.toolkit false (setDescription "a greeting" Sample.plain)
       = Some w'
       /\ toolTip w' = ("Hello World and more" ++ newline ++ "a greeting")%string.
Proof.
  destruct (description_reaches_tooltip_at_next_recompute Mono.toolkit
              "a greeting" false Sample.plain)
    as (Htip & _ & _ & w' & Hrun & _ & _ & _ & Hcut).
  split; [exact Htip|]. exists w'. split; [exact Hrun|].
  apply Hcut. vm_compute in Hrun. injection Hrun as <-. discriminate.
Defined.
